(** * Room registry, signaling relay and peer negotiation of the
      P2P/SFU video-calling application

    The development embeds three pieces of the program:

    - [Rooms]: the in-memory room manager of the server (getRoom,
      createRoom, joinRoom, leaveRoom) over a [gmap] from room identifiers
      to room records;
    - [Relay]: the Socket.IO handlers of the server (join-room, the three
      forwarding handlers and disconnect) as functions on the state of one
      connection and the registry, returning the events they emit;
    - [Negotiation]: the signaling handlers of the P2PCall component over a
      model of the browser's RTCPeerConnection signaling state machine. *)

From stdpp Require Import gmap strings list fin_maps.

Local Open Scope nat_scope.

(* ===================================================================== *)
(** * The room manager *)
(* ===================================================================== *)

Module Rooms.

(** [type RoomMode = 'p2p' | 'sfu'] *)
Inductive RoomMode : Type :=
  | p2p
  | sfu.

#[global] Instance RoomMode_eq_dec : EqDecision RoomMode.
Proof. solve_decision. Defined.

(** [interface Room { id; mode; participants }] *)
Record Room : Type := mkRoom {
  id : string;
  mode : RoomMode;
  participants : list string
}.

#[global] Instance Room_eq_dec : EqDecision Room.
Proof. solve_decision. Defined.

(** Assignments to one field of a room object. *)
Definition set_mode (m : RoomMode) (room : Room) : Room :=
  mkRoom (id room) m (participants room).

Definition set_participants (l : list string) (room : Room) : Room :=
  mkRoom (id room) (mode room) l.

(** [rooms.get(roomId)] *)
Definition getRoom (roomId : string) (rooms : gmap string Room) : option Room :=
  rooms !! roomId.

(** [createRoom]: a fresh room in 'p2p' mode holding the first participant
    is stored under [roomId] and returned. *)
Definition createRoom (roomId userId : string) (rooms : gmap string Room)
  : gmap string Room * Room :=
  let room := mkRoom roomId p2p [userId] in
  (<[roomId := room]> rooms, room).

(** [room.participants.includes(userId)] *)
Definition includes (l : list string) (userId : string) : bool :=
  bool_decide (userId ∈ l).

(** The block

      if (room.participants.length <= 2) room.mode = 'p2p';
      else room.mode = 'sfu';

    that closes both joinRoom and leaveRoom. *)
Definition updateMode (room : Room) : Room :=
  if length (participants room) <=? 2 then set_mode p2p room
  else set_mode sfu room.

(** [joinRoom].  The room object is shared between the map and the caller;
    every in-place mutation is written back under the room's key, and the
    returned record is the state of that object when the function
    returns. *)
Definition joinRoom (roomId userId : string) (rooms : gmap string Room)
  : gmap string Room * Room :=
  let '(rooms1, room) :=
    match rooms !! roomId with
    | None => createRoom roomId userId rooms
    | Some room =>
        if includes (participants room) userId then (rooms, room)
        else
          let room' := set_participants (participants room ++ [userId]) room in
          (<[roomId := room']> rooms, room')
    end in
  let room2 := updateMode room in
  (<[roomId := room2]> rooms1, room2).

(** [leaveRoom]; [None] is the [null] result. *)
Definition leaveRoom (roomId userId : string) (rooms : gmap string Room)
  : gmap string Room * option Room :=
  match rooms !! roomId with
  | None => (rooms, None)
  | Some room =>
      let room1 :=
        set_participants (filter (λ i, i ≠ userId) (participants room)) room in
      if length (participants room1) =? 0 then (delete roomId rooms, None)
      else
        let room2 := updateMode room1 in
        (<[roomId := room2]> rooms, Some room2)
  end.

(** [getAllRooms] *)
Definition getAllRooms (rooms : gmap string Room) : list Room :=
  (map_to_list rooms).*2.

(** ** Sequences of registry operations *)

Inductive Op : Type :=
  | Join (roomId userId : string)
  | Leave (roomId userId : string).

Definition step (rooms : gmap string Room) (op : Op) : gmap string Room :=
  match op with
  | Join roomId userId => (joinRoom roomId userId rooms).1
  | Leave roomId userId => (leaveRoom roomId userId rooms).1
  end.

(** The registry after a whole sequence. *)
Definition run (ops : list Op) (rooms : gmap string Room) : gmap string Room :=
  foldl step rooms ops.

(** The registries observed after each operation of a sequence, in order. *)
Fixpoint trace (ops : list Op) (rooms : gmap string Room)
  : list (gmap string Room) :=
  match ops with
  | [] => []
  | op :: ops' => step rooms op :: trace ops' (step rooms op)
  end.

(** The registry of a freshly started server: [new Map()]. *)
Definition initial : gmap string Room := ∅.

(** ** The invariants *)

(** The mode invariant as the specification words it. *)
Definition mode_inv (room : Room) : Prop :=
  (mode room = sfu ↔ 3 ≤ length (participants room)) ∧
  (mode room = p2p ↔ length (participants room) ≤ 2).

(** What every stored room satisfies: it sits under its own identifier, its
    members are distinct and at least one, and its mode was computed from
    its member count. *)
Record room_wf (roomId : string) (room : Room) : Prop := {
  wf_id : id room = roomId;
  wf_nodup : NoDup (participants room);
  wf_nonempty : participants room ≠ [];
  wf_mode : updateMode room = room
}.

Definition registry_wf (rooms : gmap string Room) : Prop :=
  map_Forall room_wf rooms.

(** An operation that may create or re-create room [roomId]. *)
Definition joins (roomId : string) (op : Op) : bool :=
  match op with
  | Join r _ => bool_decide (r = roomId)
  | Leave _ _ => false
  end.

(** A call of joinRoom as its callers see it: the REST handler wraps it in
    try/catch, so a call either returns or throws. *)
Inductive JoinError : Type :=
  | InvalidArgument.

Definition callJoinRoom (roomId userId : string) (rooms : gmap string Room)
  : JoinError + gmap string Room * Room :=
  inr (joinRoom roomId userId rooms).

End Rooms.

(* ===================================================================== *)
(** * The signaling relay *)
(* ===================================================================== *)

Module Relay.
Import Rooms.

(** [socket.data]: both fields are undefined on a new connection. *)
Record SocketData : Type := mkData {
  data_roomId : option string;
  data_userId : option string
}.

(** One connection: its identifier, its data and the Socket.IO rooms it has
    joined. *)
Record Socket : Type := mkSocket {
  socket_id : string;
  data : SocketData;
  joined : gset string
}.

(** The socket handed to the 'connection' callback. *)
Definition newSocket (sid : string) : Socket :=
  mkSocket sid (mkData None None) ∅.

(** [io.to(roomId)] reaches every socket in the room, [socket.to(roomId)]
    every socket in the room but the sender. *)
Inductive Target : Type :=
  | ToRoom (roomId : string)
  | ToOthers (roomId : string) (sender : string).

(** Events the server emits; negotiation payloads are opaque. *)
Inductive Event : Type :=
  | ModeChanged (roomId : string) (oldMode newMode : RoomMode)
                (members : list string)
  | RoomUpdated (roomId : string) (newMode : RoomMode) (members : list string)
  | FwdOffer (from offer : string)
  | FwdAnswer (from answer : string)
  | FwdIceCandidate (from candidate : string).

Record Emit : Type := mkEmit {
  target : Target;
  event : Event
}.

(** Messages a connection can deliver to the server. *)
Inductive Message : Type :=
  | JoinRoom (roomId userId : string)
  | WebrtcOffer (roomId from offer : string)
  | WebrtcAnswer (roomId from answer : string)
  | WebrtcIceCandidate (roomId from candidate : string)
  | Disconnect.

(** Truthiness of a possibly undefined string. *)
Definition truthy (s : option string) : bool :=
  match s with
  | Some s => negb (bool_decide (s = EmptyString))
  | None => false
  end.

(** The 'join-room' handler. *)
Definition onJoinRoom (roomId userId : string) (socket : Socket)
    (rooms : gmap string Room) : Socket * gmap string Room * list Emit :=
  let socket1 :=
    mkSocket (socket_id socket) (data socket) ({[roomId]} ∪ joined socket) in
  let socket2 :=
    mkSocket (socket_id socket1) (mkData (Some roomId) (Some userId))
             (joined socket1) in
  let previousMode := mode <$> getRoom roomId rooms in
  let '(rooms', room) := joinRoom roomId userId rooms in
  let changed :=
    match previousMode with
    | Some pm =>
        if bool_decide (pm ≠ mode room)
        then [mkEmit (ToRoom roomId)
                (ModeChanged roomId pm (mode room) (participants room))]
        else []
    | None => []
    end in
  (socket2, rooms',
   changed ++ [mkEmit (ToRoom roomId)
                 (RoomUpdated roomId (mode room) (participants room))]).

(** The three forwarding handlers. *)
Definition onWebrtcOffer (roomId from offer : string) (socket : Socket)
  : list Emit :=
  [mkEmit (ToOthers roomId (socket_id socket)) (FwdOffer from offer)].

Definition onWebrtcAnswer (roomId from answer : string) (socket : Socket)
  : list Emit :=
  [mkEmit (ToOthers roomId (socket_id socket)) (FwdAnswer from answer)].

Definition onWebrtcIceCandidate (roomId from candidate : string)
    (socket : Socket) : list Emit :=
  [mkEmit (ToOthers roomId (socket_id socket)) (FwdIceCandidate from candidate)].

(** The 'disconnect' handler. *)
Definition onDisconnect (socket : Socket) (rooms : gmap string Room)
  : gmap string Room * list Emit :=
  match data_roomId (data socket), data_userId (data socket) with
  | Some roomId, Some userId =>
      if truthy (Some roomId) && truthy (Some userId) then
        let previousMode := mode <$> getRoom roomId rooms in
        let '(rooms', room) := leaveRoom roomId userId rooms in
        let changed :=
          match room, previousMode with
          | Some room, Some pm =>
              if bool_decide (pm ≠ mode room)
              then [mkEmit (ToRoom roomId)
                      (ModeChanged roomId pm (mode room) (participants room))]
              else []
          | _, _ => []
          end in
        (rooms',
         changed ++ [mkEmit (ToRoom roomId)
                       (RoomUpdated roomId (from_option mode p2p room)
                                    (from_option participants [] room))])
      else (rooms, [])
  | _, _ => (rooms, [])
  end.

(** One message handled on one connection. *)
Definition handle (msg : Message) (socket : Socket) (rooms : gmap string Room)
  : Socket * gmap string Room * list Emit :=
  match msg with
  | JoinRoom roomId userId => onJoinRoom roomId userId socket rooms
  | WebrtcOffer roomId from offer =>
      (socket, rooms, onWebrtcOffer roomId from offer socket)
  | WebrtcAnswer roomId from answer =>
      (socket, rooms, onWebrtcAnswer roomId from answer socket)
  | WebrtcIceCandidate roomId from candidate =>
      (socket, rooms, onWebrtcIceCandidate roomId from candidate socket)
  | Disconnect =>
      let '(rooms', out) := onDisconnect socket rooms in (socket, rooms', out)
  end.

(** A connection's successive states under a sequence of its messages; the
    registry is threaded through. *)
Fixpoint handleAll (msgs : list Message) (socket : Socket)
    (rooms : gmap string Room) : Socket * gmap string Room * list Emit :=
  match msgs with
  | [] => (socket, rooms, [])
  | msg :: msgs' =>
      let '(socket1, rooms1, out1) := handle msg socket rooms in
      let '(socket2, rooms2, out2) := handleAll msgs' socket1 rooms1 in
      (socket2, rooms2, out1 ++ out2)
  end.

Definition isModeChanged (e : Emit) : bool :=
  match event e with
  | ModeChanged _ _ _ _ => true
  | _ => false
  end.

Definition isRoomUpdated (e : Emit) : bool :=
  match event e with
  | RoomUpdated _ _ _ => true
  | _ => false
  end.

(** Responses of POST /api/room. *)
Inductive Response : Type :=
  | Ok200 (roomId : string) (roomMode : RoomMode) (participantsCount : nat)
  | Err400
  | Err500.

(** The POST /api/room handler; the body fields may be missing. *)
Definition postApiRoom (roomId userId : option string)
    (rooms : gmap string Room) : gmap string Room * Response :=
  match roomId, userId with
  | Some r, Some u =>
      if negb (truthy roomId) || negb (truthy userId) then (rooms, Err400)
      else
        match callJoinRoom r u rooms with
        | inr (rooms', room) =>
            (rooms', Ok200 (id room) (mode room) (length (participants room)))
        | inl _ => (rooms, Err500)
        end
  | _, _ => (rooms, Err400)
  end.

(** The binding a message asks for: only 'join-room' carries one. *)
Definition binding (msg : Message) (d : SocketData) : SocketData :=
  match msg with
  | JoinRoom roomId userId => mkData (Some roomId) (Some userId)
  | _ => d
  end.

End Relay.

(* ===================================================================== *)
(** * Peer negotiation (the P2PCall component) *)
(* ===================================================================== *)

Module Negotiation.

(** ** The browser's RTCPeerConnection

    RTCPeerConnection is a browser interface, not code of the application.
    It is modelled by the signaling state machine of the W3C WebRTC
    recommendation (JSEP), restricted to what the component uses: offers,
    answers and rollback, no provisional answers, and a connection that is
    not closed.  Session descriptions and candidates are opaque, well-formed
    payloads, so an operation is rejected only for being called in a wrong
    signaling state (InvalidStateError). *)

Inductive SignalingState : Type :=
  | stable
  | have_local_offer
  | have_remote_offer.

Inductive SdpType : Type :=
  | offer
  | answer
  | rollback.

Record Description : Type := mkDesc {
  dtype : SdpType;
  sdp : string
}.

Record PeerConnection : Type := mkPC {
  signalingState : SignalingState;
  pendingLocalDescription : option Description;
  currentLocalDescription : option Description;
  pendingRemoteDescription : option Description;
  currentRemoteDescription : option Description;
  (** remote candidates accepted by addIceCandidate, oldest first *)
  appliedCandidates : list string
}.

#[global] Instance SignalingState_eq_dec : EqDecision SignalingState.
Proof. solve_decision. Defined.

(** [new RTCPeerConnection(rtcConfig)] *)
Definition newPeerConnection : PeerConnection :=
  mkPC stable None None None None [].

(** What differs between browsers and runs: whether setRemoteDescription of
    an offer in have-local-offer rolls the local offer back implicitly (the
    current recommendation) or is rejected (older engines), and the SDP text
    produced by createOffer and createAnswer. *)
Class Browser : Type := {
  implicitRollback : bool;
  offerSdp : PeerConnection → string;
  answerSdp : PeerConnection → string
}.

(** [pc.remoteDescription]: the pending description if any, else the
    current one. *)
Definition remoteDescription (c : PeerConnection) : option Description :=
  match pendingRemoteDescription c with
  | Some d => Some d
  | None => currentRemoteDescription c
  end.

(** Rollback, through either setter: both pending descriptions are dropped. *)
Definition doRollback (c : PeerConnection) : option PeerConnection :=
  match signalingState c with
  | stable => None
  | _ =>
      Some (mkPC stable None (currentLocalDescription c)
                 None (currentRemoteDescription c) (appliedCandidates c))
  end.

(** [pc.setLocalDescription(d)]; [None] is a rejected promise. *)
Definition setLocalDescription (d : Description) (c : PeerConnection)
  : option PeerConnection :=
  match dtype d, signalingState c with
  | offer, (stable | have_local_offer) =>
      Some (mkPC have_local_offer (Some d) (currentLocalDescription c)
                 (pendingRemoteDescription c) (currentRemoteDescription c)
                 (appliedCandidates c))
  | offer, have_remote_offer => None
  | answer, have_remote_offer =>
      Some (mkPC stable None (Some d)
                 None (pendingRemoteDescription c) (appliedCandidates c))
  | answer, _ => None
  | rollback, _ => doRollback c
  end.

(** [pc.setRemoteDescription(d)] *)
Definition setRemoteDescription `{Browser} (d : Description)
    (c : PeerConnection) : option PeerConnection :=
  match dtype d, signalingState c with
  | offer, (stable | have_remote_offer) =>
      Some (mkPC have_remote_offer (pendingLocalDescription c)
                 (currentLocalDescription c)
                 (Some d) (currentRemoteDescription c) (appliedCandidates c))
  | offer, have_local_offer =>
      if implicitRollback then
        Some (mkPC have_remote_offer None (currentLocalDescription c)
                   (Some d) (currentRemoteDescription c) (appliedCandidates c))
      else None
  | answer, have_local_offer =>
      Some (mkPC stable None (pendingLocalDescription c)
                 None (Some d) (appliedCandidates c))
  | answer, _ => None
  | rollback, _ => doRollback c
  end.

(** [pc.createOffer()] and [pc.createAnswer()] *)
Definition pcCreateOffer `{Browser} (c : PeerConnection) : option Description :=
  match signalingState c with
  | stable | have_local_offer => Some (mkDesc offer (offerSdp c))
  | have_remote_offer => None
  end.

Definition pcCreateAnswer `{Browser} (c : PeerConnection) : option Description :=
  match signalingState c with
  | have_remote_offer => Some (mkDesc answer (answerSdp c))
  | _ => None
  end.

(** [pc.addIceCandidate(candidate)] *)
Definition addIceCandidate (candidate : string) (c : PeerConnection)
  : option PeerConnection :=
  match remoteDescription c with
  | None => None
  | Some _ =>
      Some (mkPC (signalingState c) (pendingLocalDescription c)
                 (currentLocalDescription c) (pendingRemoteDescription c)
                 (currentRemoteDescription c)
                 (appliedCandidates c ++ [candidate]))
  end.

(** ** The component *)

(** Callbacks passed to setTimeout and not yet run: the plain
    [createOffer(pc)] of the room-updated handler and the one of
    checkRoomStateAndInitiate, which first tests for the stable state. *)
Inductive Timer : Type :=
  | OfferTimer
  | OfferIfStableTimer.

(** [socket.emit] calls of the signaling code. *)
Inductive Signal : Type :=
  | SentOffer (roomId from : string) (d : Description)
  | SentAnswer (roomId from : string) (d : Description).

Record Peer : Type := mkPeer {
  pc : PeerConnection;
  (** [isInitiatorRef.current] *)
  isInitiator : bool;
  (** [pendingCandidatesRef.current] *)
  pendingCandidates : list string;
  timers : list Timer;
  (** emitted signals, oldest first *)
  sent : list Signal;
  (** number of console.error calls of the catch blocks *)
  errors : nat
}.

(** The component once media is initialised and signaling is set up. *)
Definition newPeer : Peer :=
  mkPeer newPeerConnection false [] [] [] 0.

(** Handler bodies run on the peer state and either complete with a value or
    throw, keeping the state reached. *)
Definition M (A : Type) : Type := Peer → Peer * option A.

#[global] Instance M_ret : MRet M := λ A a p, (p, Some a).

#[global] Instance M_bind : MBind M := λ A B k m p,
  match m p with
  | (p', Some a) => k a p'
  | (p', None) => (p', None)
  end.

(** [await pc.op(...)] for an operation that changes the connection. *)
Definition await (op : PeerConnection → option PeerConnection) : M unit :=
  λ p,
    match op (pc p) with
    | Some c =>
        (mkPeer c (isInitiator p) (pendingCandidates p) (timers p) (sent p)
                (errors p), Some tt)
    | None => (p, None)
    end.

(** [await pc.op()] for an operation that produces a description. *)
Definition awaitValue {A : Type} (op : PeerConnection → option A) : M A :=
  λ p, (p, op (pc p)).

Definition emit (s : Signal) : M unit :=
  λ p,
    (mkPeer (pc p) (isInitiator p) (pendingCandidates p) (timers p)
            (sent p ++ [s]) (errors p), Some tt).

Definition setPending (q : list string) : M unit :=
  λ p,
    (mkPeer (pc p) (isInitiator p) q (timers p) (sent p) (errors p), Some tt).

Definition setInitiator (p : Peer) : Peer :=
  mkPeer (pc p) true (pendingCandidates p) (timers p) (sent p) (errors p).

Definition schedule (t : Timer) (p : Peer) : Peer :=
  mkPeer (pc p) (isInitiator p) (pendingCandidates p) (timers p ++ [t])
         (sent p) (errors p).

(** [try { body } catch (error) { console.error(...) }] *)
Definition tryCatch (body : M unit) (p : Peer) : Peer :=
  match body p with
  | (p', Some _) => p'
  | (p', None) =>
      mkPeer (pc p') (isInitiator p') (pendingCandidates p') (timers p')
             (sent p') (S (errors p'))
  end.

(** The loop

      while (pendingCandidatesRef.current.length > 0) {
        const candidate = pendingCandidatesRef.current.shift();
        if (candidate) await pc.addIceCandidate(candidate);
      }

    run on the queue [q] found when it starts; a candidate object is always
    truthy. *)
Fixpoint drainLoop (q : list string) : M unit :=
  match q with
  | [] => mret tt
  | candidate :: q' =>
      setPending q' ;; await (addIceCandidate candidate) ;; drainLoop q'
  end.

Definition drain : M unit := λ p, drainLoop (pendingCandidates p) p.

Section Component.
Context `{Browser}.
(** The props of the component. *)
Variables (roomId username : string).

(** [createOffer(pc)] *)
Definition createOffer : Peer → Peer :=
  tryCatch (
    d ← awaitValue pcCreateOffer;
    await (setLocalDescription d) ;;
    emit (SentOffer roomId username d)).

(** The test guarding the rollback in the 'webrtc-offer' handler. *)
Definition isStable (c : PeerConnection) : bool :=
  bool_decide (signalingState c = stable)
  || (bool_decide (signalingState c = have_local_offer)
      && bool_decide (is_Some (currentRemoteDescription c))).

(** if (!isStable) await pc.setLocalDescription({ type: 'rollback' }) *)
Definition rollbackUnlessStable : M unit :=
  λ p,
    if isStable (pc p) then (p, Some tt)
    else await (setLocalDescription (mkDesc rollback EmptyString)) p.

(** The 'webrtc-offer' handler. *)
Definition onOffer (from offerText : string) (p : Peer) : Peer :=
  if bool_decide (from = username) then p
  else
    tryCatch (
      rollbackUnlessStable ;;
      await (setRemoteDescription (mkDesc offer offerText)) ;;
      drain ;;
      d ← awaitValue pcCreateAnswer;
      await (setLocalDescription d) ;;
      emit (SentAnswer roomId username d))
    (setInitiator p).

(** The 'webrtc-answer' handler. *)
Definition onAnswer (from answerText : string) (p : Peer) : Peer :=
  if bool_decide (from = username) then p
  else
    tryCatch (
      await (setRemoteDescription (mkDesc answer answerText)) ;;
      drain) p.

(** if (pc.remoteDescription) await pc.addIceCandidate(iceCandidate);
    else pendingCandidatesRef.current.push(iceCandidate); *)
Definition applyOrQueue (candidate : string) : M unit :=
  λ p,
    if bool_decide (is_Some (remoteDescription (pc p)))
    then await (addIceCandidate candidate) p
    else setPending (pendingCandidates p ++ [candidate]) p.

(** The 'webrtc-ice-candidate' handler. *)
Definition onIceCandidate (from candidate : string) (p : Peer) : Peer :=
  if bool_decide (from = username) then p
  else
    tryCatch (applyOrQueue candidate) p.

(** The 'room-updated' handler of the component. *)
Definition onRoomUpdated (participants : list string) (p : Peer) : Peer :=
  if bool_decide (length participants = 2) && negb (isInitiator p)
  then schedule OfferTimer (setInitiator p)
  else p.

(** checkRoomStateAndInitiate once the room has been fetched. *)
Definition onRoomFetched (participants : list string) (p : Peer) : Peer :=
  if bool_decide (length participants = 2) && negb (isInitiator p)
  then schedule OfferIfStableTimer (setInitiator p)
  else p.

(** A timer callback runs. *)
Definition runTimer (t : Timer) (p : Peer) : Peer :=
  match t with
  | OfferTimer => createOffer p
  | OfferIfStableTimer =>
      if bool_decide (signalingState (pc p) = stable) then createOffer p
      else p
  end.

(** What can happen to the component; handlers run one at a time. *)
Inductive PeerEvent : Type :=
  | RecvOffer (from offerText : string)
  | RecvAnswer (from answerText : string)
  | RecvIceCandidate (from candidate : string)
  | RecvRoomUpdated (participants : list string)
  | RoomFetched (participants : list string)
  | TimerFired (i : nat).

Definition peerStep (p : Peer) (e : PeerEvent) : Peer :=
  match e with
  | RecvOffer from o => onOffer from o p
  | RecvAnswer from a => onAnswer from a p
  | RecvIceCandidate from c => onIceCandidate from c p
  | RecvRoomUpdated ps => onRoomUpdated ps p
  | RoomFetched ps => onRoomFetched ps p
  | TimerFired i =>
      match timers p !! i with
      | Some t =>
          runTimer t
            (mkPeer (pc p) (isInitiator p) (pendingCandidates p)
                    (delete i (timers p)) (sent p) (errors p))
      | None => p
      end
  end.

Definition runPeer (es : list PeerEvent) (p : Peer) : Peer :=
  foldl peerStep p es.

(** The candidates of a sequence of events that did not come from the
    component's own identity, in receipt order. *)
Fixpoint receivedCandidates (es : list PeerEvent) : list string :=
  match es with
  | [] => []
  | RecvIceCandidate from c :: es' =>
      if bool_decide (from = username) then receivedCandidates es'
      else c :: receivedCandidates es'
  | _ :: es' => receivedCandidates es'
  end.

End Component.

Definition isSentOffer (s : Signal) : bool :=
  match s with
  | SentOffer _ _ _ => true
  | SentAnswer _ _ _ => false
  end.

(** The offers among the signals a peer has emitted. *)
Definition offersSent (p : Peer) : list Signal :=
  List.filter isSentOffer (sent p).

(** ** Invariants of the component *)

(** Candidates wait in the queue only while no remote description is set. *)
Definition queue_inv (p : Peer) : Prop :=
  is_Some (remoteDescription (pc p)) → pendingCandidates p = [].

(** Offers are created from timers, and a timer is scheduled only by the
    handler that raises the initiator flag: pending timers and offers sent
    together number at most one, and none before the flag is raised. *)
Definition offer_budget (p : Peer) : Prop :=
  length (timers p) + length (offersSent p) ≤ (if isInitiator p then 1 else 0).

(** A connection in have-local-offer has had its offer sent. *)
Definition offered (p : Peer) : Prop :=
  signalingState (pc p) = have_local_offer → offersSent p ≠ [].

Record peer_inv (p : Peer) : Prop := {
  inv_queue : queue_inv p;
  inv_budget : offer_budget p;
  inv_offered : offered p
}.

(** No timer is pending and none will be scheduled. *)
Definition settled (p : Peer) : Prop :=
  timers p = [] ∧ isInitiator p = true.

(** A browser to run the component on concrete inputs. *)
Definition sampleBrowser : Browser :=
  {| implicitRollback := true;
     offerSdp := λ _, "v=0 o=offer"%string;
     answerSdp := λ _, "v=0 o=answer"%string |}.

End Negotiation.

(* ===================================================================== *)
(** * The remaining REST endpoints and the token helper *)
(* ===================================================================== *)

Module Rest.
Import Rooms Relay.

(** Responses of GET /api/room/:roomId; [RoomNotFound] is the 404. *)
Inductive RoomInfo : Type :=
  | RoomFound (roomId : string) (roomMode : RoomMode)
              (participantsCount : nat) (members : list string)
  | RoomNotFound.

(** The GET /api/room/:roomId handler. *)
Definition getApiRoom (roomId : string) (rooms : gmap string Room) : RoomInfo :=
  match getRoom roomId rooms with
  | None => RoomNotFound
  | Some room =>
      RoomFound (id room) (mode room) (length (participants room))
                (participants room)
  end.

(** [process.env]: the two variables the token helper reads. *)
Record Env : Type := mkEnv {
  LIVEKIT_API_KEY : option string;
  LIVEKIT_API_SECRET : option string
}.

(** The grant passed to [addGrant]. *)
Record VideoGrant : Type := mkGrant {
  roomJoin : bool;
  room : string;
  canPublish : bool;
  canSubscribe : bool
}.

(** An [AccessToken] object of the LiveKit SDK before it is signed. *)
Record AccessToken : Type := mkToken {
  tokenKey : string;
  tokenSecret : string;
  identity : string;
  grant : option VideoGrant
}.

(** Responses of GET /api/livekit-token. *)
Inductive TokenResponse : Type :=
  | TokenOk (token : string)
  | TokenErr400
  | TokenErr500.

Section Token.
(** [at.toJwt()]: the signing of the LiveKit SDK. *)
Variable toJwt : AccessToken → string.

(** [createAccessToken]; [None] is the thrown Error. *)
Definition createAccessToken (env : Env) (identity roomName : string)
  : option string :=
  if negb (truthy (LIVEKIT_API_KEY env)) || negb (truthy (LIVEKIT_API_SECRET env))
  then None
  else
    match LIVEKIT_API_KEY env, LIVEKIT_API_SECRET env with
    | Some apiKey, Some apiSecret =>
        let at0 := mkToken apiKey apiSecret identity None in
        let at1 :=
          mkToken (tokenKey at0) (tokenSecret at0) (Rest.identity at0)
                  (Some (mkGrant true roomName true true)) in
        Some (toJwt at1)
    | _, _ => None
    end.

(** The GET /api/livekit-token handler; the query fields may be missing. *)
Definition getLivekitToken (env : Env) (roomId userId : option string)
  : TokenResponse :=
  match roomId, userId with
  | Some r, Some u =>
      if negb (truthy roomId) || negb (truthy userId) then TokenErr400
      else
        match createAccessToken env u r with
        | Some token => TokenOk token
        | None => TokenErr500
        end
  | _, _ => TokenErr400
  end.

End Token.

End Rest.

(* ===================================================================== *)
(** * The call page (the Call component) *)
(* ===================================================================== *)

Module CallPage.
Import Rooms Relay Rest.

(** The state of the page that the server's broadcasts drive. *)
Record View : Type := mkView {
  currentMode : RoomMode;
  viewParticipants : list string;
  showModeChange : bool
}.




(** The callback that hides the banner after five seconds. *)
Definition onBannerTimeout (v : View) : View :=
  mkView (currentMode v) (viewParticipants v) false.

(** The REST fallback: a successful response with at least one participant
    overwrites participants and mode. *)
Definition onRoomInfo (info : RoomInfo) (v : View) : View :=
  match info with
  | RoomFound _ roomMode _ members =>
      if 0 <? length members then mkView roomMode members (showModeChange v)
      else v
  | RoomNotFound => v
  end.





End CallPage.

(* ===================================================================== *)
(** * The lobby *)
(* ===================================================================== *)

Module Lobby.

(** The alphabet of generateRoomId. *)
Definition chars : string := "ABCDEFGHIJKLMNOPQRSTUVWXYZ0123456789".

(** [s.charAt(i)]: the empty string when [i] is out of range. *)
Definition charAt (s : string) (i : nat) : string :=
  match String.get i s with
  | Some c => String c EmptyString
  | None => EmptyString
  end.

(** [generateRoomId].  [draw i] stands for the value of
    [Math.floor(Math.random() * chars.length)] in iteration [i]. *)
Definition generateRoomId (draw : nat → nat) : string :=
  foldl (λ result i, String.append result (charAt chars (draw i)))
        EmptyString (seq 0 8).

End Lobby.

(* ===================================================================== *)
(** * Vocabulary for runs of the relay and of a peer *)
(* ===================================================================== *)

Module Runs.
Import Rooms Relay Negotiation.

(** The three message kinds the relay only forwards. *)
Definition isForward (msg : Message) : bool :=
  match msg with
  | WebrtcOffer _ _ _ | WebrtcAnswer _ _ _ | WebrtcIceCandidate _ _ _ => true
  | _ => false
  end.

(** The identity a relayed negotiation event claims to come from. *)
Definition eventFrom (e : PeerEvent) : option string :=
  match e with
  | RecvOffer from _ | RecvAnswer from _ | RecvIceCandidate from _ => Some from
  | _ => None
  end.

(** Events that pass the self-echo test of the three signaling handlers. *)
Definition notEcho (username : string) (e : PeerEvent) : bool :=
  negb (bool_decide (eventFrom e = Some username)).

Definition signalRoom (s : Signal) : string :=
  match s with
  | SentOffer r _ _ | SentAnswer r _ _ => r
  end.

Definition signalFrom (s : Signal) : string :=
  match s with
  | SentOffer _ f _ | SentAnswer _ f _ => f
  end.

(** What reaches the registry: a message on some connection, or a
    POST /api/room request. *)
Inductive Request : Type :=
  | ViaSocket (socket : Socket) (msg : Message)
  | ViaPost (roomId userId : option string).

Definition serve (rooms : gmap string Room) (req : Request)
  : gmap string Room :=
  match req with
  | ViaSocket socket msg => (handle msg socket rooms).1.2
  | ViaPost roomId userId => (postApiRoom roomId userId rooms).1
  end.

Definition serveAll (reqs : list Request) (rooms : gmap string Room)
  : gmap string Room :=
  foldl serve rooms reqs.

End Runs.

(* ===================================================================== *)
(** * Properties of the room manager *)
(* ===================================================================== *)

Module RoomsFacts.
Import Rooms.

Lemma updateMode_participants room :
  participants (updateMode room) = participants room.
Proof. unfold updateMode. by case_match. Qed.

Lemma updateMode_id room : id (updateMode room) = id room.
Proof. unfold updateMode. by case_match. Qed.

Lemma updateMode_mode room :
  mode (updateMode room) =
  if length (participants room) <=? 2 then p2p else sfu.
Proof. unfold updateMode. by case_match. Qed.

Lemma updateMode_idemp room : updateMode (updateMode room) = updateMode room.
Proof.
  unfold updateMode at 1. rewrite updateMode_participants.
  unfold updateMode. by case_match.
Qed.

Lemma updateMode_mode_inv room : mode_inv (updateMode room).
Proof.
  unfold mode_inv. rewrite updateMode_participants, updateMode_mode.
  destruct (Nat.leb_spec (length (participants room)) 2);
    split; split; intros; try done; lia.
Qed.

Lemma room_wf_mode_inv roomId room : room_wf roomId room → mode_inv room.
Proof. intros [_ _ _ Hm]. rewrite <- Hm. apply updateMode_mode_inv. Qed.

Lemma updateMode_wf roomId room :
  id room = roomId → NoDup (participants room) → participants room ≠ [] →
  room_wf roomId (updateMode room).
Proof.
  intros Hid Hnd Hne. split.
  - by rewrite updateMode_id.
  - by rewrite updateMode_participants.
  - by rewrite updateMode_participants.
  - apply updateMode_idemp.
Qed.

(** joinRoom in closed form. *)
Lemma joinRoom_absent roomId userId rooms :
  rooms !! roomId = None →
  joinRoom roomId userId rooms =
  (<[roomId := mkRoom roomId p2p [userId]]> rooms, mkRoom roomId p2p [userId]).
Proof.
  intros Hl. unfold joinRoom, createRoom. rewrite Hl. cbn.
  by rewrite insert_insert_eq.
Qed.

Lemma joinRoom_member roomId userId rooms room :
  rooms !! roomId = Some room → userId ∈ participants room →
  joinRoom roomId userId rooms =
  (<[roomId := updateMode room]> rooms, updateMode room).
Proof.
  intros Hl Hin. unfold joinRoom, includes. rewrite Hl.
  by rewrite bool_decide_eq_true_2.
Qed.

Lemma joinRoom_fresh roomId userId rooms room :
  rooms !! roomId = Some room → userId ∉ participants room →
  let room' :=
    updateMode (set_participants (participants room ++ [userId]) room) in
  joinRoom roomId userId rooms = (<[roomId := room']> rooms, room').
Proof.
  intros Hl Hin. unfold joinRoom, includes. rewrite Hl.
  rewrite bool_decide_eq_false_2 by done. cbn.
  by rewrite insert_insert_eq.
Qed.

Lemma joinRoom_wf roomId userId rooms :
  registry_wf rooms → registry_wf (joinRoom roomId userId rooms).1.
Proof.
  intros Hwf. destruct (rooms !! roomId) as [room|] eqn:Hl.
  - destruct (Hwf _ _ Hl) as [Hid Hnd Hne Hm].
    destruct (decide (userId ∈ participants room)) as [Hin|Hin].
    + rewrite (joinRoom_member _ _ _ _ Hl Hin). cbn.
      apply map_Forall_insert_2; [|done]. by apply updateMode_wf.
    + rewrite (joinRoom_fresh _ _ _ _ Hl Hin). cbn.
      apply map_Forall_insert_2; [|done]. apply updateMode_wf; cbn.
      * done.
      * apply NoDup_app. split_and!; [done| |apply NoDup_singleton].
        intros x Hx ->%list_elem_of_singleton. done.
      * by destruct (participants room).
  - rewrite (joinRoom_absent _ _ _ Hl). cbn.
    apply map_Forall_insert_2; [|done].
    split; cbn; [done|apply NoDup_singleton|done|done].
Qed.

Lemma leaveRoom_wf roomId userId rooms :
  registry_wf rooms → registry_wf (leaveRoom roomId userId rooms).1.
Proof.
  intros Hwf. unfold leaveRoom.
  destruct (rooms !! roomId) as [room|] eqn:Hl; [|done].
  destruct (Hwf _ _ Hl) as [Hid Hnd Hne Hm]. cbn.
  destruct (Nat.eqb_spec (length (filter (λ i, i ≠ userId) (participants room))) 0)
    as [Hz|Hz]; cbn.
  - by apply map_Forall_delete.
  - apply map_Forall_insert_2; [|done]. apply updateMode_wf; cbn.
    + done.
    + by apply NoDup_filter.
    + intros Hnil. by rewrite Hnil in Hz.
Qed.

Lemma step_wf rooms op : registry_wf rooms → registry_wf (step rooms op).
Proof. destruct op; cbn; [apply joinRoom_wf|apply leaveRoom_wf]. Qed.

Lemma run_wf ops rooms : registry_wf rooms → registry_wf (run ops rooms).
Proof.
  revert rooms. induction ops as [|op ops IH]; intros rooms Hwf; [done|].
  cbn. apply IH. by apply step_wf.
Qed.

Lemma trace_wf ops rooms :
  registry_wf rooms → Forall registry_wf (trace ops rooms).
Proof.
  revert rooms. induction ops as [|op ops IH]; intros rooms Hwf; cbn.
  - constructor.
  - constructor; [by apply step_wf|]. apply IH. by apply step_wf.
Qed.

Lemma initial_wf : registry_wf initial.
Proof. apply map_Forall_empty. Qed.

(** C1: for every finite sequence of join and leave operations on the
    registry of a fresh server, every room present after each operation is
    in 'sfu' mode exactly when it has at least 3 participants and in 'p2p'
    mode exactly when it has at most 2. *)
Theorem mode_invariant_after_every_operation (ops : list Op) :
  Forall (map_Forall (λ _ room, mode_inv room)) (trace ops initial).
Proof.
  eapply Forall_impl; [apply trace_wf, initial_wf|].
  intros rooms Hwf roomId room Hl. cbn.
  eapply room_wf_mode_inv. by apply Hwf.
Qed.

Lemma joinRoom_twice roomId userId rooms :
  joinRoom roomId userId (joinRoom roomId userId rooms).1 =
  joinRoom roomId userId rooms.
Proof.
  destruct (rooms !! roomId) as [room|] eqn:Hl.
  - destruct (decide (userId ∈ participants room)) as [Hin|Hin].
    + rewrite (joinRoom_member _ _ _ _ Hl Hin). cbn.
      erewrite joinRoom_member;
        [|apply lookup_insert_eq|by rewrite updateMode_participants].
      by rewrite updateMode_idemp, insert_insert_eq.
    + rewrite (joinRoom_fresh _ _ _ _ Hl Hin). cbn.
      erewrite joinRoom_member; [|apply lookup_insert_eq|].
      * by rewrite updateMode_idemp, insert_insert_eq.
      * rewrite updateMode_participants. cbn. set_solver.
  - rewrite (joinRoom_absent _ _ _ Hl). cbn.
    erewrite joinRoom_member; [|apply lookup_insert_eq|cbn; set_solver].
    by rewrite insert_insert_eq.
Qed.

(** C4: in every registry reached by join and leave operations, joining a
    room again with an identity that is already one of its members leaves
    the registry as it is (member list, order and mode included) and
    returns the room as it stands. *)
Theorem join_existing_member_is_noop
    (ops : list Op) (roomId userId : string) (room : Room) :
  run ops initial !! roomId = Some room →
  userId ∈ participants room →
  joinRoom roomId userId (run ops initial) = (run ops initial, room).
Proof.
  intros Hl Hin. rewrite (joinRoom_member _ _ _ _ Hl Hin).
  destruct (run_wf ops initial initial_wf _ _ Hl) as [_ _ _ Hm].
  rewrite Hm. by rewrite insert_id.
Qed.

Lemma join_existing_member_is_noop_witness :
  joinRoom "r" "a" (run [Join "r" "a"; Join "r" "b"] initial) =
  (run [Join "r" "a"; Join "r" "b"] initial, mkRoom "r" p2p ["a"; "b"]).
Proof.
  apply (join_existing_member_is_noop [Join "r" "a"; Join "r" "b"] "r" "a").
  - vm_compute. reflexivity.
  - simpl. apply list_elem_of_here.
Defined.

Lemma joinRoom_other roomId userId rooms r :
  r ≠ roomId → (joinRoom roomId userId rooms).1 !! r = rooms !! r.
Proof.
  intros Hne. unfold joinRoom, createRoom.
  destruct (rooms !! roomId) as [room|]; [destruct (includes _ _)|]; cbn;
    by rewrite ?lookup_insert_ne.
Qed.

Lemma leaveRoom_other roomId userId rooms r :
  r ≠ roomId → (leaveRoom roomId userId rooms).1 !! r = rooms !! r.
Proof.
  intros Hne. unfold leaveRoom.
  destruct (rooms !! roomId) as [room|]; [|done].
  case_match; cbn; by rewrite ?lookup_insert_ne, ?lookup_delete_ne.
Qed.

Lemma leaveRoom_absent roomId userId rooms :
  rooms !! roomId = None → leaveRoom roomId userId rooms = (rooms, None).
Proof. intros Hl. unfold leaveRoom. by rewrite Hl. Qed.

Lemma leaveRoom_last roomId userId rooms room :
  rooms !! roomId = Some room →
  filter (λ i, i ≠ userId) (participants room) = [] →
  leaveRoom roomId userId rooms = (delete roomId rooms, None).
Proof. intros Hl Hf. unfold leaveRoom. rewrite Hl. cbn. by rewrite Hf. Qed.

Lemma step_stays_absent roomId rooms op :
  rooms !! roomId = None → joins roomId op = false →
  step rooms op !! roomId = None.
Proof.
  intros Hl Hj. destruct op as [r u|r u]; cbn in *.
  - apply bool_decide_eq_false in Hj. by rewrite joinRoom_other.
  - destruct (decide (r = roomId)) as [->|Hne].
    + by rewrite leaveRoom_absent.
    + by rewrite leaveRoom_other.
Qed.

Lemma run_stays_absent roomId ops rooms :
  rooms !! roomId = None → forallb (λ op, negb (joins roomId op)) ops = true →
  run ops rooms !! roomId = None.
Proof.
  revert rooms. induction ops as [|op ops IH]; intros rooms Hl Hj; [done|].
  cbn in Hj. apply andb_true_iff in Hj as [Hop Hj].
  cbn. apply IH; [|done]. apply step_stays_absent; [done|].
  by apply negb_true_iff.
Qed.

(** C5: when a leave removes the last member of a room, the room is deleted
    from the registry and the call returns null; from then on getRoom finds
    nothing under that identifier, whatever operations follow, as long as
    none of them joins that room, and the first such join creates the room
    anew. *)
Theorem leave_last_member_deletes_room
    (rooms : gmap string Room) (roomId userId : string) (room : Room) :
  rooms !! roomId = Some room →
  filter (λ i, i ≠ userId) (participants room) = [] →
  leaveRoom roomId userId rooms = (delete roomId rooms, None) ∧
  (∀ ops, forallb (λ op, negb (joins roomId op)) ops = true →
     getRoom roomId (run ops (leaveRoom roomId userId rooms).1) = None) ∧
  (∀ ops v, forallb (λ op, negb (joins roomId op)) ops = true →
     getRoom roomId
       (run (ops ++ [Join roomId v]) (leaveRoom roomId userId rooms).1) =
     Some (mkRoom roomId p2p [v])).
Proof.
  intros Hl Hf. rewrite (leaveRoom_last _ _ _ _ Hl Hf). cbn.
  assert (Habs : ∀ ops, forallb (λ op, negb (joins roomId op)) ops = true →
            run ops (delete roomId rooms) !! roomId = None).
  { intros ops Hj. apply run_stays_absent; [apply lookup_delete_eq|done]. }
  split_and!; [done|exact Habs|].
  intros ops v Hj. unfold getRoom, run. rewrite foldl_app. cbn.
  rewrite joinRoom_absent by (by apply Habs). cbn.
  apply lookup_insert_eq.
Qed.

Lemma leave_last_member_deletes_room_witness :
  leaveRoom "r" "a" (run [Join "r" "a"] initial) =
    (delete "r" (run [Join "r" "a"] initial), None) ∧
  (∀ ops, forallb (λ op, negb (joins "r" op)) ops = true →
     getRoom "r" (run ops (leaveRoom "r" "a" (run [Join "r" "a"] initial)).1)
     = None) ∧
  (∀ ops v, forallb (λ op, negb (joins "r" op)) ops = true →
     getRoom "r"
       (run (ops ++ [Join "r" v])
            (leaveRoom "r" "a" (run [Join "r" "a"] initial)).1) =
     Some (mkRoom "r" p2p [v])).
Proof.
  apply (leave_last_member_deletes_room _ "r" "a" (mkRoom "r" p2p ["a"])).
  - vm_compute. reflexivity.
  - vm_compute. reflexivity.
Defined.

(** C9: leaving a room that is not in the registry returns null and leaves
    the registry as it is; the result is the same null that a leave
    emptying a room returns. *)
Theorem leave_unknown_room_returns_null
    (rooms : gmap string Room) (roomId userId : string) :
  rooms !! roomId = None →
  leaveRoom roomId userId rooms = (rooms, None) ∧
  (∀ rooms2 roomId2 userId2 room,
     rooms2 !! roomId2 = Some room →
     filter (λ i, i ≠ userId2) (participants room) = [] →
     (leaveRoom roomId2 userId2 rooms2).2 = (leaveRoom roomId userId rooms).2).
Proof.
  intros Hl. rewrite (leaveRoom_absent _ _ _ Hl). split; [done|].
  intros rooms2 roomId2 userId2 room Hl2 Hf.
  by rewrite (leaveRoom_last _ _ _ _ Hl2 Hf).
Qed.

Lemma leave_unknown_room_returns_null_witness :
  leaveRoom "r" "a" (run [Join "s" "a"] initial) =
    (run [Join "s" "a"] initial, None) ∧
  (∀ rooms2 roomId2 userId2 room,
     rooms2 !! roomId2 = Some room →
     filter (λ i, i ≠ userId2) (participants room) = [] →
     (leaveRoom roomId2 userId2 rooms2).2 =
     (leaveRoom "r" "a" (run [Join "s" "a"] initial)).2).
Proof.
  apply (leave_unknown_room_returns_null (run [Join "s" "a"] initial) "r" "a").
  vm_compute. reflexivity.
Defined.

Lemma filter_ne_notin (userId : string) (l : list string) :
  userId ∉ l → filter (λ i, i ≠ userId) l = l.
Proof.
  induction l as [|x l IH]; intros Hin; [done|].
  apply not_elem_of_cons in Hin as [Hne Hin].
  rewrite filter_cons_True by done. by rewrite IH.
Qed.

Lemma filter_ne_split (userId : string) (before after : list string) :
  userId ∉ before → userId ∉ after →
  filter (λ i, i ≠ userId) (before ++ userId :: after) = before ++ after.
Proof.
  intros Hb Ha. rewrite filter_app, filter_cons_False by (intros Hn; by apply Hn).
  by rewrite !filter_ne_notin.
Qed.

(** C10: in every registry reached by join and leave operations, a leave of
    a member of a room with other members takes exactly that identity out of
    the member list, the members before and after it keeping their order;
    the room keeps its identifier, its mode is recomputed from the new
    count, and the room is stored and returned in that state. *)
Theorem leave_removes_only_that_identity
    (ops : list Op) (roomId userId : string) (room : Room) :
  run ops initial !! roomId = Some room →
  userId ∈ participants room →
  length (participants room) ≠ 1 →
  ∃ before after,
    participants room = before ++ userId :: after ∧
    let room' :=
      mkRoom (id room)
             (if length (before ++ after) <=? 2 then p2p else sfu)
             (before ++ after) in
    leaveRoom roomId userId (run ops initial) =
      (<[roomId := room']> (run ops initial), Some room').
Proof.
  intros Hl Hin Hlen.
  destruct (run_wf ops initial initial_wf _ _ Hl) as [_ Hnd _ _].
  apply list_elem_of_split in Hin as (before & after & Heq).
  exists before, after. split; [done|].
  rewrite Heq in Hnd. apply NoDup_app in Hnd as (_ & Hb & Ha).
  apply NoDup_cons in Ha as [Ha _].
  assert (Hnb : userId ∉ before).
  { intros Hx. apply (Hb _ Hx). apply list_elem_of_here. }
  unfold leaveRoom. rewrite Hl. cbn. rewrite Heq.
  rewrite (filter_ne_split _ _ _ Hnb Ha).
  destruct (Nat.eqb_spec (length (before ++ after)) 0) as [Hz|Hz].
  - exfalso. apply Hlen. rewrite Heq, length_app in *. cbn. lia.
  - unfold updateMode. cbn. by case_match.
Qed.

Lemma leave_removes_only_that_identity_witness :
  ∃ before after,
    participants (mkRoom "r" sfu ["a"; "b"; "c"]) = before ++ "b" :: after ∧
    let room' :=
      mkRoom (id (mkRoom "r" sfu ["a"; "b"; "c"]))
             (if length (before ++ after) <=? 2 then p2p else sfu)
             (before ++ after) in
    leaveRoom "r" "b" (run [Join "r" "a"; Join "r" "b"; Join "r" "c"] initial) =
      (<["r" := room']> (run [Join "r" "a"; Join "r" "b"; Join "r" "c"] initial),
       Some room').
Proof.
  apply (leave_removes_only_that_identity
           [Join "r" "a"; Join "r" "b"; Join "r" "c"] "r" "b").
  - vm_compute. reflexivity.
  - simpl. apply list_elem_of_further, list_elem_of_here.
  - simpl. lia.
Defined.

End RoomsFacts.

(* ===================================================================== *)
(** * Properties of the signaling relay *)
(* ===================================================================== *)

Module RelayFacts.
Import Rooms Relay RoomsFacts.

Lemma joinRoom_lookup roomId userId rooms :
  (joinRoom roomId userId rooms).1 !! roomId =
  Some (joinRoom roomId userId rooms).2.
Proof.
  unfold joinRoom, createRoom.
  destruct (rooms !! roomId) as [room|]; [destruct (includes _ _)|]; cbn;
    apply lookup_insert_eq.
Qed.

Lemma joinRoom_returns_member roomId userId rooms :
  userId ∈ participants (joinRoom roomId userId rooms).2.
Proof.
  destruct (rooms !! roomId) as [room|] eqn:Hl.
  - destruct (decide (userId ∈ participants room)) as [Hin|Hin].
    + rewrite (joinRoom_member _ _ _ _ Hl Hin). cbn.
      by rewrite updateMode_participants.
    + rewrite (joinRoom_fresh _ _ _ _ Hl Hin). cbn.
      rewrite updateMode_participants. cbn. set_solver.
  - rewrite (joinRoom_absent _ _ _ Hl). cbn. set_solver.
Qed.

Lemma onJoinRoom_registry roomId userId socket rooms :
  (onJoinRoom roomId userId socket rooms).1.2 = (joinRoom roomId userId rooms).1.
Proof. unfold onJoinRoom. by destruct (joinRoom roomId userId rooms). Qed.

Lemma onJoinRoom_emits roomId userId socket rooms :
  let room := (joinRoom roomId userId rooms).2 in
  (onJoinRoom roomId userId socket rooms).2 =
  match mode <$> getRoom roomId rooms with
  | Some pm =>
      if bool_decide (pm ≠ mode room)
      then [mkEmit (ToRoom roomId)
              (ModeChanged roomId pm (mode room) (participants room))]
      else []
  | None => []
  end ++ [mkEmit (ToRoom roomId)
            (RoomUpdated roomId (mode room) (participants room))].
Proof. unfold onJoinRoom. by destruct (joinRoom roomId userId rooms). Qed.

(** C6: a 'join-room' leaves the joined room in the registry, and with
    [room] its state after the join: a mode-changed event is emitted exactly
    when the room existed before with a different mode, and never more than
    once; it then carries the old mode, the new mode and the members, goes
    to the whole room and comes right before the room-updated event; exactly
    one room-updated event is emitted in every case, and when the join
    creates the room or keeps its mode it is the only event. *)
Theorem join_emits_mode_changed_iff_mode_differs
    (roomId userId : string) (socket : Socket) (rooms : gmap string Room) :
  let res := onJoinRoom roomId userId socket rooms in
  ∃ room,
    getRoom roomId res.1.2 = Some room ∧
    let updated :=
      mkEmit (ToRoom roomId)
             (RoomUpdated roomId (mode room) (participants room)) in
    ((∃ old, getRoom roomId rooms = Some old ∧ mode old ≠ mode room) ↔
     length (List.filter isModeChanged res.2) = 1) ∧
    length (List.filter isModeChanged res.2) ≤ 1 ∧
    length (List.filter isRoomUpdated res.2) = 1 ∧
    (∀ old, getRoom roomId rooms = Some old → mode old ≠ mode room →
       res.2 = [mkEmit (ToRoom roomId)
                  (ModeChanged roomId (mode old) (mode room)
                               (participants room));
                updated]) ∧
    (getRoom roomId rooms = None ∨
     (∃ old, getRoom roomId rooms = Some old ∧ mode old = mode room) →
       res.2 = [updated]).
Proof.
  cbn zeta. exists (joinRoom roomId userId rooms).2.
  rewrite onJoinRoom_registry, onJoinRoom_emits. cbn zeta.
  split; [apply joinRoom_lookup|].
  destruct (getRoom roomId rooms) as [old|]; cbn [fmap option_fmap option_map].
  - case_bool_decide as Hm.
    + split_and!.
      * split; [done|]. intros _. by exists old.
      * done.
      * done.
      * by intros ? [= <-] _.
      * intros [[=]|(? & [= <-] & Heq)]. done.
    + split_and!.
      * split; [|done]. by intros (? & [= <-] & Hne).
      * cbn. lia.
      * done.
      * by intros ? [= <-] Hne.
      * done.
  - split_and!.
    + split; [|done]. by intros (? & [=] & _).
    + cbn. lia.
    + done.
    + by intros ? [=].
    + done.
Qed.

(** The end-to-end scenario of the specification: the second join of a
    room announces no mode change, the third announces p2p to sfu. *)
Example join_second_member_no_mode_changed :
  (onJoinRoom "R1" "b" (newSocket "s2") (run [Join "R1" "a"] initial)).2 =
  [mkEmit (ToRoom "R1") (RoomUpdated "R1" p2p ["a"; "b"])].
Proof. vm_compute. reflexivity. Qed.

Example join_third_member_mode_changed :
  (onJoinRoom "R1" "c" (newSocket "s3")
     (run [Join "R1" "a"; Join "R1" "b"] initial)).2 =
  [mkEmit (ToRoom "R1") (ModeChanged "R1" p2p sfu ["a"; "b"; "c"]);
   mkEmit (ToRoom "R1") (RoomUpdated "R1" sfu ["a"; "b"; "c"])].
Proof. vm_compute. reflexivity. Qed.

(** C7, as the specification states it, fails: joinRoom with the empty
    identity does not fail, it creates the room with the empty string as
    its first member. *)
Lemma join_empty_identity_succeeds :
  callJoinRoom "r" EmptyString initial =
    inr ({["r" := mkRoom "r" p2p [EmptyString]]}, mkRoom "r" p2p [EmptyString]) ∧
  ¬ (∀ roomId userId rooms,
       callJoinRoom roomId userId rooms = inl InvalidArgument ↔
       userId = EmptyString).
Proof.
  split; [vm_compute; reflexivity|].
  intros Hclaim.
  discriminate (proj2 (Hclaim "r"%string EmptyString initial) eq_refl).
Qed.

(** C7, amended: joinRoom never fails.  For every room identifier and every
    identity, the empty one included, the call returns the room now stored
    under that identifier, with the identity among its members.  Empty or
    missing identifiers are refused one layer up, by POST /api/room, which
    answers 400 and leaves the registry alone; with both present and
    non-empty it answers with the joined room. *)
Theorem join_never_fails
    (roomId userId : string) (rooms : gmap string Room) :
  (∃ rooms' room,
     callJoinRoom roomId userId rooms = inr (rooms', room) ∧
     getRoom roomId rooms' = Some room ∧
     userId ∈ participants room) ∧
  postApiRoom (Some roomId) (Some EmptyString) rooms = (rooms, Err400) ∧
  postApiRoom (Some EmptyString) (Some userId) rooms = (rooms, Err400) ∧
  postApiRoom None (Some userId) rooms = (rooms, Err400) ∧
  postApiRoom (Some roomId) None rooms = (rooms, Err400) ∧
  (roomId ≠ EmptyString → userId ≠ EmptyString →
   ∃ rooms' room,
     postApiRoom (Some roomId) (Some userId) rooms =
       (rooms', Ok200 (id room) (mode room) (length (participants room))) ∧
     (rooms', room) = joinRoom roomId userId rooms).
Proof.
  split_and!.
  - exists (joinRoom roomId userId rooms).1, (joinRoom roomId userId rooms).2.
    split_and!.
    + unfold callJoinRoom. by destruct (joinRoom roomId userId rooms).
    + apply joinRoom_lookup.
    + apply joinRoom_returns_member.
  - unfold postApiRoom, truthy. cbn. by rewrite orb_true_r.
  - done.
  - done.
  - done.
  - intros Hr Hu. unfold postApiRoom, truthy, callJoinRoom.
    rewrite !bool_decide_eq_false_2 by done. cbn.
    destruct (joinRoom roomId userId rooms) as [rooms' room]. by eexists _, _.
Qed.

Lemma handle_data msg socket rooms :
  data (handle msg socket rooms).1.1 = binding msg (data socket).
Proof.
  destruct msg; cbn; try done.
  - unfold onJoinRoom. by destruct (joinRoom _ _ _).
  - by destruct (onDisconnect socket rooms).
Qed.

(** C8, as the specification states it, fails: a second 'join-room' on a
    connection that is already bound rebinds it. *)
Lemma second_join_rebinds_connection :
  let first := handle (JoinRoom "r1" "a") (newSocket "s") initial in
  let second := handle (JoinRoom "r2" "b") first.1.1 first.1.2 in
  data first.1.1 = mkData (Some "r1"%string) (Some "a"%string) ∧
  data second.1.1 = mkData (Some "r2"%string) (Some "b"%string) ∧
  data second.1.1 ≠ data first.1.1.
Proof. vm_compute. split_and!; [done|done|discriminate]. Qed.

(** C8, amended: every 'join-room' message binds the connection to its own
    roomId and userId, replacing an earlier binding; no other message
    changes the binding.  Over a sequence of messages the binding is thus the
    one of the last 'join-room', and the initial one if there is none. *)
Theorem binding_set_by_every_join
    (msgs : list Message) (socket : Socket) (rooms : gmap string Room) :
  data (handleAll msgs socket rooms).1.1 = foldl (flip binding) (data socket) msgs ∧
  (∀ msg, data (handle msg socket rooms).1.1 =
          match msg with
          | JoinRoom roomId userId => mkData (Some roomId) (Some userId)
          | _ => data socket
          end).
Proof.
  split; [|intros msg; rewrite handle_data; by destruct msg].
  revert socket rooms. induction msgs as [|msg msgs IH]; intros socket rooms.
  - done.
  - cbn. pose proof (handle_data msg socket rooms) as Hd.
    destruct (handle msg socket rooms) as [[socket1 rooms1] out1].
    specialize (IH socket1 rooms1).
    destruct (handleAll msgs socket1 rooms1) as [[socket2 rooms2] out2].
    cbn in *. by rewrite IH, Hd.
Qed.

End RelayFacts.

(* ===================================================================== *)
(** * Properties of the peer negotiation *)
(* ===================================================================== *)

Module NegotiationFacts.
Import Negotiation.

Lemma drainLoop_ok q c ini pend tm snt er :
  is_Some (remoteDescription c) →
  drainLoop q (mkPeer c ini pend tm snt er) =
  (mkPeer (mkPC (signalingState c) (pendingLocalDescription c)
                (currentLocalDescription c) (pendingRemoteDescription c)
                (currentRemoteDescription c) (appliedCandidates c ++ q))
          ini (match q with [] => pend | _ => [] end) tm snt er, Some tt).
Proof.
  revert c pend. induction q as [|x q IH]; intros c pend Hr.
  - cbn. rewrite app_nil_r. by destruct c.
  - cbn. unfold mbind, M_bind, setPending, await, addIceCandidate. cbn.
    destruct Hr as [d Hr]. rewrite Hr.
    rewrite IH.
    + cbn. rewrite <- app_assoc. cbn. by destruct q.
    + unfold remoteDescription in *. cbn. by rewrite Hr.
Qed.

Lemma drainLoop_queue c ini pend tm snt er :
  is_Some (remoteDescription c) →
  drainLoop pend (mkPeer c ini pend tm snt er) =
  (mkPeer (mkPC (signalingState c) (pendingLocalDescription c)
                (currentLocalDescription c) (pendingRemoteDescription c)
                (currentRemoteDescription c) (appliedCandidates c ++ pend))
          ini [] tm snt er, Some tt).
Proof.
  intros Hr. rewrite drainLoop_ok by done. by destruct pend.
Qed.

Lemma offersSent_snoc_answer c ini pend tm snt er r u d :
  offersSent (mkPeer c ini pend tm (snt ++ [SentAnswer r u d]) er) =
  offersSent (mkPeer c ini pend tm snt er).
Proof. unfold offersSent. cbn. rewrite List.filter_app. cbn. apply app_nil_r. Qed.

Ltac run_m :=
  cbn;
  unfold mbind, M_bind, mret, M_ret, rollbackUnlessStable, applyOrQueue,
    await, awaitValue, emit, setPending, isStable, setRemoteDescription,
    setLocalDescription, doRollback, pcCreateAnswer, pcCreateOffer,
    addIceCandidate, remoteDescription, drain;
  cbn;
  repeat (case_bool_decide; simplify_eq/=);
  unfold offersSent; cbn; rewrite ?List.filter_app; cbn; rewrite ?app_nil_r.

Ltac drained := rewrite drainLoop_queue by (cbn; eauto); run_m.

Section Facts.
Context `{Browser} (roomId username : string).

Abbreviation onOffer := (onOffer roomId username).
Abbreviation onAnswer := (onAnswer username).
Abbreviation onIceCandidate := (onIceCandidate username).
Abbreviation createOffer := (createOffer roomId username).
Abbreviation peerStep := (peerStep roomId username).
Abbreviation runPeer := (runPeer roomId username).

Lemma onOffer_glare from o ap ini pend tm snt er pl cl pr :
  from ≠ username →
  let c := mkPC have_remote_offer None cl (Some (mkDesc offer o)) None
                (ap ++ pend) in
  onOffer from o
    (mkPeer (mkPC have_local_offer pl cl pr None ap) ini pend tm snt er) =
  mkPeer (mkPC stable None (Some (mkDesc answer (answerSdp c))) None
               (Some (mkDesc offer o)) (ap ++ pend))
         true [] tm
         (snt ++ [SentAnswer roomId username (mkDesc answer (answerSdp c))])
         er.
Proof.
  intros Hne. unfold onOffer. rewrite bool_decide_eq_false_2 by done.
  unfold tryCatch, setInitiator. run_m. by drained.
Qed.

Lemma onOffer_outcome from o p :
  from ≠ username →
  let p' := onOffer from o p in
  isInitiator p' = true ∧ timers p' = timers p ∧
  offersSent p' = offersSent p ∧
  ((errors p' = S (errors p) ∧ pc p' = pc p ∧
    pendingCandidates p' = pendingCandidates p) ∨
   (errors p' = errors p ∧ signalingState (pc p') = stable ∧
    currentRemoteDescription (pc p') = Some (mkDesc offer o) ∧
    pendingRemoteDescription (pc p') = None ∧
    appliedCandidates (pc p') =
      appliedCandidates (pc p) ++ pendingCandidates p ∧
    pendingCandidates p' = [])).
Proof.
  intros Hne. unfold onOffer. rewrite bool_decide_eq_false_2 by done.
  destruct p as [[st pl cl pr cr ap] ini pend tm snt er].
  unfold tryCatch, setInitiator.
  destruct st; run_m.
  - drained. split_and!; try done. by right.
  - destruct implicitRollback; run_m.
    + drained. split_and!; try done. by right.
    + split_and!; try done. by left.
  - drained. split_and!; try done. by right.
  - drained. split_and!; try done. by right.
Qed.

Lemma onAnswer_outcome from a p :
  from ≠ username →
  let p' := onAnswer from a p in
  isInitiator p' = isInitiator p ∧ timers p' = timers p ∧ sent p' = sent p ∧
  ((errors p' = S (errors p) ∧ pc p' = pc p ∧
    pendingCandidates p' = pendingCandidates p) ∨
   (errors p' = errors p ∧ signalingState (pc p') = stable ∧
    currentRemoteDescription (pc p') = Some (mkDesc answer a) ∧
    pendingRemoteDescription (pc p') = None ∧
    appliedCandidates (pc p') =
      appliedCandidates (pc p) ++ pendingCandidates p ∧
    pendingCandidates p' = [])).
Proof.
  intros Hne. unfold onAnswer. rewrite bool_decide_eq_false_2 by done.
  destruct p as [[st pl cl pr cr ap] ini pend tm snt er].
  unfold tryCatch. destruct st; run_m.
  - split_and!; try done. by left.
  - drained. split_and!; try done. by right.
  - split_and!; try done. by left.
Qed.

Lemma onIceCandidate_outcome from c p :
  from ≠ username →
  let p' := onIceCandidate from c p in
  isInitiator p' = isInitiator p ∧ timers p' = timers p ∧ sent p' = sent p ∧
  errors p' = errors p ∧
  signalingState (pc p') = signalingState (pc p) ∧
  remoteDescription (pc p') = remoteDescription (pc p) ∧
  ((remoteDescription (pc p) = None ∧
    appliedCandidates (pc p') = appliedCandidates (pc p) ∧
    pendingCandidates p' = pendingCandidates p ++ [c]) ∨
   (is_Some (remoteDescription (pc p)) ∧
    appliedCandidates (pc p') = appliedCandidates (pc p) ++ [c] ∧
    pendingCandidates p' = pendingCandidates p)).
Proof.
  intros Hne. unfold onIceCandidate. rewrite bool_decide_eq_false_2 by done.
  destruct p as [[st pl cl pr cr ap] ini pend tm snt er].
  unfold tryCatch, applyOrQueue. cbn.
  destruct (remoteDescription _) as [d|] eqn:Hr.
  - rewrite bool_decide_eq_true_2 by eauto.
    unfold await, addIceCandidate. cbn. rewrite Hr. cbn.
    split_and!; try done. right. eauto.
  - rewrite bool_decide_eq_false_2 by (by intros [? ?]).
    cbn. rewrite Hr. split_and!; try done. by left.
Qed.

Lemma createOffer_outcome p :
  let p' := createOffer p in
  isInitiator p' = isInitiator p ∧ timers p' = timers p ∧
  pendingCandidates p' = pendingCandidates p ∧
  appliedCandidates (pc p') = appliedCandidates (pc p) ∧
  remoteDescription (pc p') = remoteDescription (pc p) ∧
  ((errors p' = S (errors p) ∧ pc p' = pc p ∧ sent p' = sent p) ∨
   (errors p' = errors p ∧ signalingState (pc p') = have_local_offer ∧
    ∃ d, sent p' = sent p ++ [SentOffer roomId username d])).
Proof.
  destruct p as [[st pl cl pr cr ap] ini pend tm snt er].
  unfold createOffer, tryCatch. destruct st; run_m.
  - split_and!; try done. right. eauto.
  - split_and!; try done. right. eauto.
  - split_and!; try done. by left.
Qed.

Lemma createOffer_offersSent p :
  offersSent (createOffer p) = offersSent p ∨
  (signalingState (pc (createOffer p)) = have_local_offer ∧
   ∃ d, offersSent (createOffer p) =
        offersSent p ++ [SentOffer roomId username d]).
Proof.
  destruct (createOffer_outcome p) as (_ & _ & _ & _ & _ & [(_&_&Hs)|(_&Hst&d&Hs)]).
  - left. unfold offersSent. by rewrite Hs.
  - right. split; [done|]. exists d. unfold offersSent.
    by rewrite Hs, List.filter_app.
Qed.

Lemma onOffer_self o p : onOffer username o p = p.
Proof. unfold Negotiation.onOffer. by rewrite bool_decide_eq_true_2. Qed.

Lemma onAnswer_self a p : onAnswer username a p = p.
Proof. unfold Negotiation.onAnswer. by rewrite bool_decide_eq_true_2. Qed.

Lemma onIceCandidate_self c p : onIceCandidate username c p = p.
Proof. unfold Negotiation.onIceCandidate. by rewrite bool_decide_eq_true_2. Qed.

Lemma receivedCandidates_app es es' :
  receivedCandidates username (es ++ es') =
  receivedCandidates username es ++ receivedCandidates username es'.
Proof.
  induction es as [|e es IH]; [done|].
  destruct e; cbn; try done. case_bool_decide; [done|]. by rewrite IH.
Qed.

Lemma runTimer_inv t p :
  queue_inv p → offered p →
  let p' := runTimer roomId username t p in
  queue_inv p' ∧ offered p' ∧
  isInitiator p' = isInitiator p ∧ timers p' = timers p ∧
  length (offersSent p') ≤ S (length (offersSent p)) ∧
  appliedCandidates (pc p') = appliedCandidates (pc p) ∧
  pendingCandidates p' = pendingCandidates p.
Proof.
  intros Hq Ho.
  assert (Hc : let p' := createOffer p in
            queue_inv p' ∧ offered p' ∧
            isInitiator p' = isInitiator p ∧ timers p' = timers p ∧
            length (offersSent p') ≤ S (length (offersSent p)) ∧
            appliedCandidates (pc p') = appliedCandidates (pc p) ∧
            pendingCandidates p' = pendingCandidates p).
  { cbn zeta.
    destruct (createOffer_outcome p) as (Hi & Ht & Hp & Ha & Hr & Hcase).
    split_and!; try done.
    - unfold queue_inv. rewrite Hr, Hp. apply Hq.
    - unfold offered.
      destruct (createOffer_offersSent p) as [Hs|(_ & d & Hs)]; rewrite Hs.
      + destruct Hcase as [(_ & Hpc & _)|(_ & Hst & d & Hs')].
        * rewrite Hpc. apply Ho.
        * exfalso. unfold offersSent in Hs. rewrite Hs', List.filter_app in Hs.
          cbn in Hs. apply (f_equal length) in Hs.
          rewrite length_app in Hs. cbn in Hs. lia.
      + intros _. by destruct (offersSent p).
    - destruct (createOffer_offersSent p) as [Hs|(_ & d & Hs)]; rewrite Hs.
      + lia.
      + rewrite length_app. cbn. lia. }
  destruct t; cbn; [exact Hc|].
  case_bool_decide; [exact Hc|]. split_and!; try done. lia.
Qed.

Lemma peerStep_inv p e :
  peer_inv p →
  peer_inv (peerStep p e) ∧
  appliedCandidates (pc (peerStep p e)) ++ pendingCandidates (peerStep p e) =
    (appliedCandidates (pc p) ++ pendingCandidates p) ++
    receivedCandidates username [e].
Proof.
  intros [Hq Hb Ho].
  destruct e as [from o|from a|from c|ps|ps|i];
    cbn -[Negotiation.onOffer Negotiation.onAnswer Negotiation.onIceCandidate].
  - (* offer *)
    rewrite app_nil_r. destruct (decide (from = username)) as [->|Hf];
      [by rewrite onOffer_self|].
    destruct (onOffer_outcome from o p Hf)
      as (Hi & Ht & Hs & [(He & Hpc & Hp)|(He & Hst & Hcr & Hpr & Ha & Hp)]).
    + split; [|by rewrite Hpc, Hp].
      split.
      * unfold queue_inv. rewrite Hpc, Hp. apply Hq.
      * unfold offer_budget in *. rewrite Ht, Hs, Hi. destruct (isInitiator p); lia.
      * unfold offered. rewrite Hpc, Hs. apply Ho.
    + split; [|by rewrite Ha, Hp, app_nil_r].
      split.
      * by intros _.
      * unfold offer_budget in *. rewrite Ht, Hs, Hi. destruct (isInitiator p); lia.
      * unfold offered. by rewrite Hst.
  - (* answer *)
    rewrite app_nil_r. destruct (decide (from = username)) as [->|Hf];
      [by rewrite onAnswer_self|].
    destruct (onAnswer_outcome from a p Hf)
      as (Hi & Ht & Hs & [(He & Hpc & Hp)|(He & Hst & Hcr & Hpr & Ha & Hp)]).
    + split; [|by rewrite Hpc, Hp].
      split.
      * unfold queue_inv. rewrite Hpc, Hp. apply Hq.
      * unfold offer_budget, offersSent in *. by rewrite Ht, Hs, Hi.
      * unfold offered, offersSent. rewrite Hpc, Hs. apply Ho.
    + split; [|by rewrite Ha, Hp, app_nil_r].
      split.
      * by intros _.
      * unfold offer_budget, offersSent in *. by rewrite Ht, Hs, Hi.
      * unfold offered. by rewrite Hst.
  - (* candidate *)
    destruct (decide (from = username)) as [->|Hf].
    { rewrite onIceCandidate_self, bool_decide_eq_true_2 by done.
      by rewrite app_nil_r. }
    rewrite bool_decide_eq_false_2 by done.
    destruct (onIceCandidate_outcome from c p Hf)
      as (Hi & Ht & Hs & He & Hst & Hr & Hcase).
    split.
    + split.
      * unfold queue_inv. rewrite Hr. intros Hsome.
        destruct Hcase as [(Hn & _)|(_ & _ & Hp)].
        -- rewrite Hn in Hsome. by destruct Hsome.
        -- rewrite Hp. by apply Hq.
      * unfold offer_budget, offersSent in *. by rewrite Ht, Hs, Hi.
      * unfold offered, offersSent. rewrite Hst, Hs. apply Ho.
    + destruct Hcase as [(Hn & Ha & Hp)|(Hsome & Ha & Hp)]; rewrite Ha, Hp.
      * by rewrite app_assoc.
      * rewrite (Hq Hsome). by rewrite !app_nil_r.
  - (* room-updated *)
    rewrite app_nil_r. unfold onRoomUpdated.
    destruct (bool_decide (length ps = 2) && negb (isInitiator p)) eqn:Hc;
      [|done].
    apply andb_true_iff in Hc as [_ Hini]. apply negb_true_iff in Hini.
    split; [|done]. unfold offer_budget in Hb. rewrite Hini in Hb.
    split.
    + apply Hq.
    + unfold offer_budget, offersSent in *. cbn. rewrite length_app. cbn. lia.
    + apply Ho.
  - (* room fetched *)
    rewrite app_nil_r. unfold onRoomFetched.
    destruct (bool_decide (length ps = 2) && negb (isInitiator p)) eqn:Hc;
      [|done].
    apply andb_true_iff in Hc as [_ Hini]. apply negb_true_iff in Hini.
    split; [|done]. unfold offer_budget in Hb. rewrite Hini in Hb.
    split.
    + apply Hq.
    + unfold offer_budget, offersSent in *. cbn. rewrite length_app. cbn. lia.
    + apply Ho.
  - (* timer *)
    rewrite app_nil_r. destruct (timers p !! i) as [t|] eqn:Hl; [|done].
    set (p1 := mkPeer (pc p) (isInitiator p) (pendingCandidates p)
                      (delete i (timers p)) (sent p) (errors p)).
    destruct (runTimer_inv t p1) as (Hq' & Ho' & Hi & Ht & Hlen & Ha & Hp);
      [apply Hq|apply Ho|].
    split; [|by rewrite Ha, Hp].
    split; [done| |done].
    unfold offer_budget in *. rewrite Ht, Hi. cbn.
    pose proof (lookup_lt_Some _ _ _ Hl) as Hlt.
    rewrite length_delete by eauto.
    change (offersSent p1) with (offersSent p) in Hlen. lia.
Qed.

Lemma newPeer_inv : peer_inv newPeer.
Proof.
  split; [by intros [? [=]]|unfold offer_budget; cbn; lia|by intros [=]].
Qed.

Lemma runPeer_inv es :
  peer_inv (runPeer es newPeer) ∧
  appliedCandidates (pc (runPeer es newPeer)) ++
    pendingCandidates (runPeer es newPeer) =
  receivedCandidates username es.
Proof.
  induction es as [|e es [IH1 IH2]] using rev_ind; [split; [apply newPeer_inv|done]|].
  unfold Negotiation.runPeer. rewrite foldl_snoc. fold (runPeer es newPeer).
  destruct (peerStep_inv (runPeer es newPeer) e IH1) as [Hi Hc].
  split; [done|]. by rewrite Hc, IH2, receivedCandidates_app.
Qed.

Lemma peerStep_settled p e :
  settled p →
  settled (peerStep p e) ∧ offersSent (peerStep p e) = offersSent p.
Proof.
  intros [Ht Hi].
  destruct e as [from o|from a|from c|ps|ps|i];
    cbn -[Negotiation.onOffer Negotiation.onAnswer Negotiation.onIceCandidate].
  - destruct (decide (from = username)) as [->|Hf];
      [by rewrite onOffer_self|].
    destruct (onOffer_outcome from o p Hf) as (Hi' & Ht' & Hs & _).
    split; [|done]. split; [by rewrite Ht'|done].
  - destruct (decide (from = username)) as [->|Hf];
      [by rewrite onAnswer_self|].
    destruct (onAnswer_outcome from a p Hf) as (Hi' & Ht' & Hs & _).
    unfold offersSent. rewrite Hs. split; [|done].
    split; [by rewrite Ht'|by rewrite Hi'].
  - destruct (decide (from = username)) as [->|Hf];
      [by rewrite onIceCandidate_self|].
    destruct (onIceCandidate_outcome from c p Hf) as (Hi' & Ht' & Hs & _).
    unfold offersSent. rewrite Hs. split; [|done].
    split; [by rewrite Ht'|by rewrite Hi'].
  - unfold onRoomUpdated. rewrite Hi, andb_false_r. done.
  - unfold onRoomFetched. rewrite Hi, andb_false_r. done.
  - by rewrite Ht.
Qed.

Lemma runPeer_settled es p :
  settled p → offersSent (runPeer es p) = offersSent p.
Proof.
  revert p. induction es as [|e es IH]; intros p Hs; [done|].
  cbn. destruct (peerStep_settled p e Hs) as [Hs' Ho].
  fold (runPeer es (peerStep p e)).
  by rewrite IH, Ho.
Qed.

(** C2: a component that has sent its offer and holds it uncommitted
    (have-local-offer, no remote description committed) and receives an
    offer from another identity rolls its own offer back, takes the
    incoming offer as remote description, applies the queued candidates,
    sends one answer and ends in the stable state with no pending local
    description, without an error; whatever happens afterwards, it never
    sends another offer. *)
Theorem glare_offer_rolls_back_and_answers
    (es : list PeerEvent) (from o : string) :
  from ≠ username →
  signalingState (pc (runPeer es newPeer)) = have_local_offer →
  currentRemoteDescription (pc (runPeer es newPeer)) = None →
  ∃ a,
    dtype a = answer ∧
    pc (onOffer from o (runPeer es newPeer)) =
      mkPC stable None (Some a) None (Some (mkDesc offer o))
           (appliedCandidates (pc (runPeer es newPeer)) ++
            pendingCandidates (runPeer es newPeer)) ∧
    sent (onOffer from o (runPeer es newPeer)) =
      sent (runPeer es newPeer) ++ [SentAnswer roomId username a] ∧
    errors (onOffer from o (runPeer es newPeer)) =
      errors (runPeer es newPeer) ∧
    (∀ es', offersSent (runPeer es' (onOffer from o (runPeer es newPeer))) =
            offersSent (runPeer es newPeer)).
Proof.
  intros Hne Hst Hcr.
  destruct (runPeer_inv es) as [[_ Hb Ho] _].
  destruct (runPeer es newPeer) as [[st pl cl pr cr ap] ini pend tm snt er].
  cbn in Hst, Hcr. subst st cr.
  rewrite (onOffer_glare _ _ _ _ _ _ _ _ _ _ _ Hne). cbn zeta.
  eexists (mkDesc answer _). split_and!; [done|done|done|done|].
  intros es'. rewrite runPeer_settled.
  - unfold offersSent. cbn. rewrite List.filter_app. cbn. apply app_nil_r.
  - split; [|done]. cbn.
    unfold offer_budget, offered in *. cbn in *.
    specialize (Ho eq_refl).
    destruct (List.filter isSentOffer snt); [done|].
    destruct tm; [done|]. cbn in Hb. destruct ini; lia.
Qed.

(** C3: a candidate from another identity that arrives while no remote
    description is set is not applied but appended to the queue; an offer
    or an answer handled without error sets a remote description, applies
    all queued candidates after the ones already applied, in queue order,
    and empties the queue; and over every sequence of events from the
    start of the component, the applied candidates followed by the queued
    ones are exactly the candidates received from other identities, in
    receipt order, so none is ever dropped. *)
Theorem candidates_queued_then_applied_in_order :
  (∀ p from c,
     from ≠ username → remoteDescription (pc p) = None →
     appliedCandidates (pc (onIceCandidate from c p)) =
       appliedCandidates (pc p) ∧
     pendingCandidates (onIceCandidate from c p) =
       pendingCandidates p ++ [c]) ∧
  (∀ p from o,
     from ≠ username → errors (onOffer from o p) = errors p →
     is_Some (remoteDescription (pc (onOffer from o p))) ∧
     appliedCandidates (pc (onOffer from o p)) =
       appliedCandidates (pc p) ++ pendingCandidates p ∧
     pendingCandidates (onOffer from o p) = []) ∧
  (∀ p from a,
     from ≠ username → errors (onAnswer from a p) = errors p →
     is_Some (remoteDescription (pc (onAnswer from a p))) ∧
     appliedCandidates (pc (onAnswer from a p)) =
       appliedCandidates (pc p) ++ pendingCandidates p ∧
     pendingCandidates (onAnswer from a p) = []) ∧
  (∀ es,
     appliedCandidates (pc (runPeer es newPeer)) ++
       pendingCandidates (runPeer es newPeer) =
     receivedCandidates username es).
Proof.
  split_and!.
  - intros p from c Hne Hr.
    destruct (onIceCandidate_outcome from c p Hne)
      as (_ & _ & _ & _ & _ & _ & [(_ & Ha & Hp)|(Hsome & _)]); [done|].
    rewrite Hr in Hsome. by destruct Hsome.
  - intros p from o Hne He.
    destruct (onOffer_outcome from o p Hne)
      as (_ & _ & _ & [(He' & _)|(_ & _ & Hcr & Hpr & Ha & Hp)]); [lia|].
    split_and!; [|done|done].
    unfold remoteDescription. rewrite Hpr, Hcr. eauto.
  - intros p from a Hne He.
    destruct (onAnswer_outcome from a p Hne)
      as (_ & _ & _ & [(He' & _)|(_ & _ & Hcr & Hpr & Ha & Hp)]); [lia|].
    split_and!; [|done|done].
    unfold remoteDescription. rewrite Hpr, Hcr. eauto.
  - intros es. apply runPeer_inv.
Qed.

End Facts.

Lemma glare_offer_rolls_back_and_answers_witness :
  ∃ a,
    dtype a = answer ∧
    pc (onOffer (H := sampleBrowser) "R1" "a" "b" "v=0 o=remote"
          (runPeer (H := sampleBrowser) "R1" "a"
             [RecvRoomUpdated ["a"; "b"]; TimerFired 0] newPeer)) =
      mkPC stable None (Some a) None (Some (mkDesc offer "v=0 o=remote")) [] ∧
    sent (onOffer (H := sampleBrowser) "R1" "a" "b" "v=0 o=remote"
            (runPeer (H := sampleBrowser) "R1" "a"
               [RecvRoomUpdated ["a"; "b"]; TimerFired 0] newPeer)) =
      [SentOffer "R1" "a" (mkDesc offer "v=0 o=offer");
       SentAnswer "R1" "a" a].
Proof.
  destruct (glare_offer_rolls_back_and_answers (H := sampleBrowser)
              "R1" "a" [RecvRoomUpdated ["a"; "b"]; TimerFired 0]
              "b" "v=0 o=remote")
    as (a & Ha & Hpc & Hs & _).
  - discriminate.
  - vm_compute. reflexivity.
  - vm_compute. reflexivity.
  - exists a. split_and!; [exact Ha|exact Hpc|exact Hs].
Defined.

(** Two candidates that race ahead of the offer are queued, then applied in
    receipt order when the offer arrives; a later candidate is applied at
    once. *)
Example candidates_before_offer :
  let p :=
    runPeer (H := sampleBrowser) "R1" "a"
      [RecvIceCandidate "b" "c1"; RecvIceCandidate "b" "c2";
       RecvOffer "b" "v=0 o=remote"; RecvIceCandidate "b" "c3"] newPeer in
  appliedCandidates (pc p) = ["c1"; "c2"; "c3"]%string ∧
  pendingCandidates p = [] ∧
  sent p = [SentAnswer "R1" "a" (mkDesc answer "v=0 o=answer")].
Proof. vm_compute. done. Qed.

End NegotiationFacts.

(* ===================================================================== *)
(** * Further properties of the room manager *)
(* ===================================================================== *)

Module RoomsExtra.
Import Rooms RoomsFacts.

(** X1: in every registry reached by join and leave operations, each room
    is stored under its own identifier, lists no identity twice and has at
    least one participant. *)
Theorem reached_rooms_are_keyed_distinct_nonempty (ops : list Op) :
  map_Forall (λ roomId room,
                id room = roomId ∧ NoDup (participants room) ∧
                1 ≤ length (participants room))
             (run ops initial).
Proof.
  intros roomId room Hl.
  destruct (run_wf ops initial initial_wf _ _ Hl) as [Hid Hnd Hne _].
  split_and!; [done|done|]. destruct (participants room); [done|cbn; lia].
Qed.

Lemma updateMode_closed room :
  updateMode room =
  mkRoom (id room) (if length (participants room) <=? 2 then p2p else sfu)
         (participants room).
Proof. unfold updateMode. by case_match. Qed.

Lemma updateMode_set_participants l room :
  updateMode (set_participants l (updateMode room)) =
  updateMode (set_participants l room).
Proof. by rewrite !updateMode_closed. Qed.

Lemma joins_extend_room roomId (us : list string) rooms room :
  rooms !! roomId = Some room →
  NoDup (participants room ++ us) →
  run (Join roomId <$> us) rooms !! roomId =
  Some (match us with
        | [] => room
        | _ => updateMode (set_participants (participants room ++ us) room)
        end).
Proof.
  induction us as [|u us IH] using rev_ind; intros Hl Hnd; [done|].
  rewrite fmap_app. unfold run. rewrite foldl_app. cbn.
  fold (run (Join roomId <$> us) rooms).
  rewrite app_assoc in Hnd. apply NoDup_app in Hnd as (Hnd & Hdisj & _).
  specialize (IH Hl Hnd).
  assert (Hu : u ∉ participants room ++ us).
  { intros Hin. apply (Hdisj _ Hin). apply list_elem_of_here. }
  destruct us as [|u' us'].
  - rewrite app_nil_r in Hu.
    rewrite (joinRoom_fresh _ _ _ _ IH Hu). cbn. rewrite lookup_insert_eq.
    by destruct (_ ++ [u]).
  - erewrite joinRoom_fresh; [|exact IH|by rewrite updateMode_participants].
    cbn [fst]. rewrite lookup_insert_eq. f_equal.
    replace ((u' :: us') ++ [u]) with (u' :: us' ++ [u]) by done.
    rewrite !updateMode_closed. cbn. by rewrite <- !app_assoc.
Qed.

(** X2: joining distinct identities one after the other into a room that
    does not exist yet creates the room with exactly these participants, in
    join order, and with the mode of their count. *)
Theorem joins_fill_fresh_room_in_join_order
    (rooms : gmap string Room) (roomId u : string) (us : list string) :
  rooms !! roomId = None →
  NoDup (u :: us) →
  run (Join roomId <$> (u :: us)) rooms !! roomId =
  Some (mkRoom roomId (if length (u :: us) <=? 2 then p2p else sfu) (u :: us)).
Proof.
  intros Hl Hnd. cbn [fmap list_fmap run foldl step].
  rewrite (joinRoom_absent _ _ _ Hl). cbn [fst].
  fold (run (Join roomId <$> us) (<[roomId:=mkRoom roomId p2p [u]]> rooms)).
  rewrite (joins_extend_room roomId us _ (mkRoom roomId p2p [u]));
    [|apply lookup_insert_eq|done].
  destruct us as [|u' us']; [done|].
  by rewrite updateMode_closed.
Qed.

Lemma joins_fill_fresh_room_in_join_order_witness :
  run (Join "r" <$> ["a"; "b"; "c"]) initial !! "r" =
  Some (mkRoom "r" sfu ["a"; "b"; "c"]).
Proof.
  apply (joins_fill_fresh_room_in_join_order initial "r" "a" ["b"; "c"]).
  - reflexivity.
  - apply (bool_decide_unpack _). vm_compute. exact I.
Defined.

Lemma leaveRoom_after_fresh_join roomId userId rooms :
  registry_wf rooms →
  (∀ room, rooms !! roomId = Some room → userId ∉ participants room) →
  leaveRoom roomId userId (joinRoom roomId userId rooms).1 =
  (rooms, rooms !! roomId).
Proof.
  intros Hwf Hnot. destruct (rooms !! roomId) as [room|] eqn:Hl.
  - specialize (Hnot _ eq_refl).
    destruct (Hwf _ _ Hl) as [Hid Hnd Hne Hm].
    rewrite (joinRoom_fresh _ _ _ _ Hl Hnot). cbn [fst].
    unfold leaveRoom. rewrite lookup_insert_eq.
    rewrite updateMode_participants. cbn.
    rewrite (filter_ne_split userId (participants room) [] Hnot)
      by apply not_elem_of_nil.
    rewrite app_nil_r.
    destruct (participants room) as [|x l] eqn:Hp; [done|]. cbn [length Nat.eqb].
    assert (Hroom :
      updateMode (set_participants (x :: l)
        (updateMode (set_participants ((x :: l) ++ [userId]) room))) = room).
    { rewrite updateMode_set_participants.
      transitivity (updateMode room); [|done].
      rewrite !updateMode_closed. cbn. by rewrite Hp. }
    rewrite Hroom, insert_insert_eq. by rewrite insert_id.
  - rewrite (joinRoom_absent _ _ _ Hl). cbn [fst].
    erewrite leaveRoom_last; [|apply lookup_insert_eq|].
    + by rewrite delete_insert_id.
    + exact (filter_ne_split userId [] []
               (not_elem_of_nil _) (not_elem_of_nil _)).
Qed.

(** X3: in a reached registry, joining a room with an identity that is not
    in it (the room may be absent) and then leaving with the same identity
    gives the registry back unchanged; the leave returns the room as it was,
    or null when the join had created it. *)
Theorem join_then_leave_restores_registry
    (ops : list Op) (roomId userId : string) :
  (∀ room, run ops initial !! roomId = Some room →
           userId ∉ participants room) →
  leaveRoom roomId userId (joinRoom roomId userId (run ops initial)).1 =
  (run ops initial, run ops initial !! roomId).
Proof. intros Hnot. apply leaveRoom_after_fresh_join; [apply run_wf, initial_wf|done]. Qed.

Lemma join_then_leave_restores_registry_witness :
  leaveRoom "r" "c"
    (joinRoom "r" "c" (run [Join "r" "a"; Join "r" "b"] initial)).1 =
  (run [Join "r" "a"; Join "r" "b"] initial,
   run [Join "r" "a"; Join "r" "b"] initial !! "r").
Proof.
  apply (join_then_leave_restores_registry [Join "r" "a"; Join "r" "b"] "r" "c").
  intros room Hl. vm_compute in Hl. injection Hl as <-. simpl.
  apply (bool_decide_unpack _). vm_compute. exact I.
Defined.

(** X4: joinRoom and leaveRoom on one room never change what getRoom
    returns for any other room identifier. *)
Theorem operations_leave_other_rooms_alone
    (rooms : gmap string Room) (roomId userId other : string) :
  other ≠ roomId →
  getRoom other (joinRoom roomId userId rooms).1 = getRoom other rooms ∧
  getRoom other (leaveRoom roomId userId rooms).1 = getRoom other rooms.
Proof.
  intros Hne. split; [by apply joinRoom_other|by apply leaveRoom_other].
Qed.

Lemma operations_leave_other_rooms_alone_witness :
  getRoom "s" (joinRoom "r" "a" (run [Join "s" "b"] initial)).1 =
    getRoom "s" (run [Join "s" "b"] initial) ∧
  getRoom "s" (leaveRoom "r" "a" (run [Join "s" "b"] initial)).1 =
    getRoom "s" (run [Join "s" "b"] initial).
Proof.
  apply (operations_leave_other_rooms_alone _ "r" "a" "s"). discriminate.
Defined.

(** X5: in a reached registry, leaving a room with an identity that is not
    one of its participants changes nothing and returns the room as it
    stands. *)
Theorem leave_of_non_member_is_noop
    (ops : list Op) (roomId userId : string) (room : Room) :
  run ops initial !! roomId = Some room →
  userId ∉ participants room →
  leaveRoom roomId userId (run ops initial) = (run ops initial, Some room).
Proof.
  intros Hl Hnot.
  destruct (run_wf ops initial initial_wf _ _ Hl) as [Hid Hnd Hne Hm].
  unfold leaveRoom. rewrite Hl. cbn. rewrite (filter_ne_notin _ _ Hnot).
  destruct (participants room) as [|x l] eqn:Hp; [done|]. cbn [length Nat.eqb].
  assert (Hroom : updateMode (set_participants (x :: l) room) = room).
  { transitivity (updateMode room); [|done].
    rewrite !updateMode_closed. cbn. by rewrite Hp. }
  by rewrite Hroom, insert_id.
Qed.

Lemma leave_of_non_member_is_noop_witness :
  leaveRoom "r" "z" (run [Join "r" "a"] initial) =
  (run [Join "r" "a"] initial, Some (mkRoom "r" p2p ["a"])).
Proof.
  apply (leave_of_non_member_is_noop [Join "r" "a"] "r" "z").
  - vm_compute. reflexivity.
  - simpl. apply (bool_decide_unpack _). vm_compute. exact I.
Defined.

(** X6: in any registry, after leaveRoom the identity is in neither the
    returned room nor the room stored under that identifier. *)
Theorem leave_removes_every_occurrence
    (rooms : gmap string Room) (roomId userId : string) :
  (∀ room, (leaveRoom roomId userId rooms).2 = Some room →
           userId ∉ participants room) ∧
  (∀ room, getRoom roomId (leaveRoom roomId userId rooms).1 = Some room →
           userId ∉ participants room).
Proof.
  unfold leaveRoom, getRoom.
  destruct (rooms !! roomId) as [old|] eqn:Hl; cbn.
  - assert (Hf : userId ∉ filter (λ i, i ≠ userId) (participants old)).
    { intros Hin. apply list_elem_of_filter in Hin as [Hn _]. by apply Hn. }
    case_match; cbn.
    + split; [done|]. intros room. by rewrite lookup_delete_eq.
    + split; intros room; rewrite ?lookup_insert_eq; intros [= <-];
        by rewrite updateMode_participants.
  - split; [done|]. intros room. by rewrite Hl.
Qed.

(** X7: in a reached registry getAllRooms lists as many rooms as the map
    holds, no two with the same id, and a room is listed exactly when getRoom
    finds it under its id. *)
Theorem getAllRooms_lists_each_room_once (ops : list Op) :
  length (getAllRooms (run ops initial)) = size (run ops initial) ∧
  NoDup (id <$> getAllRooms (run ops initial)) ∧
  (∀ room, room ∈ getAllRooms (run ops initial) ↔
           getRoom (id room) (run ops initial) = Some room).
Proof.
  pose proof (run_wf ops initial initial_wf) as Hwf.
  set (rooms := run ops initial) in *.
  unfold getAllRooms.
  assert (Hids : id <$> (map_to_list rooms).*2 = (map_to_list rooms).*1).
  { rewrite <- list_fmap_compose. apply Forall_fmap_ext_1.
    apply Forall_forall. intros [k room] Hin. cbn.
    apply elem_of_map_to_list in Hin. by destruct (Hwf _ _ Hin). }
  split_and!.
  - by rewrite length_fmap, length_map_to_list.
  - rewrite Hids. apply NoDup_fst_map_to_list.
  - intros room. rewrite list_elem_of_fmap. split.
    + intros ([k r] & -> & Hin). cbn.
      apply elem_of_map_to_list in Hin.
      destruct (Hwf _ _ Hin) as [-> _ _ _]. done.
    + intros Hl. exists (id room, room). split; [done|].
      by apply elem_of_map_to_list.
Qed.

End RoomsExtra.

(* ===================================================================== *)
(** * Further properties of the signaling relay *)
(* ===================================================================== *)

Module RelayExtra.
Import Rooms Relay Rest Runs RoomsFacts RelayFacts RoomsExtra.

Lemma leaveRoom_lookup roomId userId rooms :
  (leaveRoom roomId userId rooms).1 !! roomId = (leaveRoom roomId userId rooms).2.
Proof.
  unfold leaveRoom. destruct (rooms !! roomId) as [room|] eqn:Hl; [|done].
  case_match; cbn; [apply lookup_delete_eq|apply lookup_insert_eq].
Qed.

Lemma onDisconnect_bound socket rooms r u :
  data socket = mkData (Some r) (Some u) → r ≠ EmptyString → u ≠ EmptyString →
  onDisconnect socket rooms =
  ((leaveRoom r u rooms).1,
   match (leaveRoom r u rooms).2, mode <$> getRoom r rooms with
   | Some room, Some pm =>
       if bool_decide (pm ≠ mode room)
       then [mkEmit (ToRoom r)
               (ModeChanged r pm (mode room) (participants room))]
       else []
   | _, _ => []
   end ++
   [mkEmit (ToRoom r)
      (RoomUpdated r (from_option mode p2p (leaveRoom r u rooms).2)
                   (from_option participants [] (leaveRoom r u rooms).2))]).
Proof.
  intros Hd Hr Hu. unfold onDisconnect. rewrite Hd. cbn.
  rewrite !bool_decide_eq_false_2 by done. cbn.
  by destruct (leaveRoom r u rooms).
Qed.

(** X8: the disconnect of a connection bound to non-empty roomId and userId
    performs leaveRoom for them and emits exactly one room-updated event, to
    the whole room and last.  If the room is gone afterwards that event
    carries mode p2p and no participants and is the only event; if the room
    remains, a mode-changed event precedes it exactly when the mode
    differs from the one before the leave. *)
Theorem disconnect_announces_the_leave
    (socket : Socket) (rooms : gmap string Room) (r u : string) :
  data socket = mkData (Some r) (Some u) →
  r ≠ EmptyString → u ≠ EmptyString →
  let res := onDisconnect socket rooms in
  res.1 = (leaveRoom r u rooms).1 ∧
  length (List.filter isRoomUpdated res.2) = 1 ∧
  match getRoom r res.1 with
  | None => res.2 = [mkEmit (ToRoom r) (RoomUpdated r p2p [])]
  | Some room =>
      ∃ old, getRoom r rooms = Some old ∧
        res.2 =
          (if bool_decide (mode old = mode room) then []
           else [mkEmit (ToRoom r)
                   (ModeChanged r (mode old) (mode room) (participants room))])
          ++ [mkEmit (ToRoom r)
                (RoomUpdated r (mode room) (participants room))]
  end.
Proof.
  intros Hd Hr Hu. cbn zeta. rewrite (onDisconnect_bound _ _ _ _ Hd Hr Hu).
  cbn [fst snd]. unfold getRoom. rewrite leaveRoom_lookup.
  split; [done|].
  destruct (leaveRoom r u rooms).2 as [room|] eqn:Hres.
  - assert (Hold : is_Some (rooms !! r)).
    { unfold leaveRoom in Hres. destruct (rooms !! r); [eauto|done]. }
    destruct Hold as [old Hold]. rewrite Hold. cbn [fmap option_fmap option_map].
    split.
    + case_bool_decide; done.
    + exists old. split; [done|].
      repeat case_bool_decide; done.
  - cbn. split; [|done]. by destruct (mode <$> rooms !! r).
Qed.

Lemma disconnect_announces_the_leave_witness :
  let socket :=
    mkSocket "s3" (mkData (Some "R1"%string) (Some "c"%string)) ∅ in
  let rooms := run [Join "R1" "a"; Join "R1" "b"; Join "R1" "c"] initial in
  let res := onDisconnect socket rooms in
  res.1 = (leaveRoom "R1" "c" rooms).1 ∧
  length (List.filter isRoomUpdated res.2) = 1 ∧
  match getRoom "R1" res.1 with
  | None => res.2 = [mkEmit (ToRoom "R1") (RoomUpdated "R1" p2p [])]
  | Some room =>
      ∃ old, getRoom "R1" rooms = Some old ∧
        res.2 =
          (if bool_decide (mode old = mode room) then []
           else [mkEmit (ToRoom "R1")
                   (ModeChanged "R1" (mode old) (mode room)
                                (participants room))])
          ++ [mkEmit (ToRoom "R1")
                (RoomUpdated "R1" (mode room) (participants room))]
  end.
Proof.
  apply (disconnect_announces_the_leave _ _ "R1" "c");
    [reflexivity|discriminate|discriminate].
Defined.

(** The example of the handler's comment: three participants, one
    disconnects, the room falls back from sfu to p2p. *)
Example disconnect_third_member_mode_changed :
  (onDisconnect
     (mkSocket "s3" (mkData (Some "R1"%string) (Some "c"%string)) ∅)
     (run [Join "R1" "a"; Join "R1" "b"; Join "R1" "c"] initial)).2 =
  [mkEmit (ToRoom "R1") (ModeChanged "R1" sfu p2p ["a"; "b"]);
   mkEmit (ToRoom "R1") (RoomUpdated "R1" p2p ["a"; "b"])].
Proof. vm_compute. reflexivity. Qed.

(** X9: a disconnect on a connection whose roomId or userId is undefined
    or empty changes neither the registry nor the connection and emits
    nothing. *)
Theorem disconnect_before_join_is_silent
    (socket : Socket) (rooms : gmap string Room) :
  truthy (data_roomId (data socket)) && truthy (data_userId (data socket))
    = false →
  handle Disconnect socket rooms = (socket, rooms, []).
Proof.
  intros Hf. cbn. unfold onDisconnect.
  destruct (data_roomId (data socket)) as [r|], (data_userId (data socket)) as [u|];
    try done.
  by rewrite Hf.
Qed.

Lemma disconnect_before_join_is_silent_witness :
  handle Disconnect (newSocket "s") (run [Join "r" "a"] initial) =
  (newSocket "s", run [Join "r" "a"] initial, []).
Proof. apply disconnect_before_join_is_silent. reflexivity. Defined.

(** X10: a sequence of offer, answer and ice-candidate messages leaves the
    registry and the connection unchanged and produces exactly one emission
    per message, in message order: the i-th emission carries the i-th
    message's from and payload unchanged and goes to the others in the room
    named by that message. *)
Theorem forwarding_keeps_order_and_state
    (msgs : list Message) (socket : Socket) (rooms : gmap string Room) :
  forallb isForward msgs = true →
  let res := handleAll msgs socket rooms in
  res.1 = (socket, rooms) ∧
  length res.2 = length msgs ∧
  (∀ i r from offer,
     msgs !! i = Some (WebrtcOffer r from offer) →
     res.2 !! i =
       Some (mkEmit (ToOthers r (socket_id socket)) (FwdOffer from offer))) ∧
  (∀ i r from answer,
     msgs !! i = Some (WebrtcAnswer r from answer) →
     res.2 !! i =
       Some (mkEmit (ToOthers r (socket_id socket)) (FwdAnswer from answer))) ∧
  (∀ i r from candidate,
     msgs !! i = Some (WebrtcIceCandidate r from candidate) →
     res.2 !! i =
       Some (mkEmit (ToOthers r (socket_id socket))
                    (FwdIceCandidate from candidate))).
Proof.
  cbn zeta. induction msgs as [|msg msgs IH]; intros Hf.
  - cbn. split_and!; try done; intros i ? ? ? Hl; by destruct i.
  - cbn in Hf. apply andb_true_iff in Hf as [Hm Hf].
    destruct (IH Hf) as (Hst & Hlen & Ho & Ha & Hc). clear IH.
    destruct msg as [| r f x | r f x | r f x |]; try done;
      cbn [handleAll handle];
      destruct (handleAll msgs socket rooms) as [[socket2 rooms2] out2];
      cbn [fst snd] in *; injection Hst as -> ->;
      (split_and!; [done|cbn; by rewrite Hlen|..];
       intros [|i] ? ? ?; cbn; intros Hl; simplify_eq; eauto).
Qed.

Lemma forwarding_keeps_order_and_state_witness :
  (handleAll [WebrtcOffer "r" "a" "o1"; WebrtcIceCandidate "r" "a" "c1"]
             (newSocket "s") initial).1 = (newSocket "s", initial) ∧
  (handleAll [WebrtcOffer "r" "a" "o1"; WebrtcIceCandidate "r" "a" "c1"]
             (newSocket "s") initial).2 !! 1 =
    Some (mkEmit (ToOthers "r" "s") (FwdIceCandidate "a" "c1")).
Proof.
  destruct (forwarding_keeps_order_and_state
              [WebrtcOffer "r" "a" "o1"; WebrtcIceCandidate "r" "a" "c1"]
              (newSocket "s") initial eq_refl) as (Hst & _ & _ & _ & Hc).
  split; [exact Hst|]. exact (Hc 1 "r"%string "a"%string "c1"%string eq_refl).
Defined.

Lemma joinRoom_keeps_members roomId userId rooms room x :
  rooms !! roomId = Some room → x ∈ participants room →
  x ∈ participants (joinRoom roomId userId rooms).2.
Proof.
  intros Hl Hx. destruct (decide (userId ∈ participants room)) as [Hin|Hin].
  - rewrite (joinRoom_member _ _ _ _ Hl Hin). cbn.
    by rewrite updateMode_participants.
  - rewrite (joinRoom_fresh _ _ _ _ Hl Hin). cbn.
    rewrite updateMode_participants. cbn. set_solver.
Qed.

Lemma leaveRoom_keeps_others roomId userId rooms room x :
  rooms !! roomId = Some room → x ∈ participants room → x ≠ userId →
  ∃ room', (leaveRoom roomId userId rooms).1 !! roomId = Some room' ∧
           x ∈ participants room'.
Proof.
  intros Hl Hx Hne. unfold leaveRoom. rewrite Hl. cbn.
  assert (Hf : x ∈ filter (λ i, i ≠ userId) (participants room))
    by by apply list_elem_of_filter.
  destruct (filter _ _) as [|y l] eqn:Hfl; [by apply elem_of_nil in Hf|].
  cbn [length Nat.eqb fst]. eexists. rewrite lookup_insert_eq. split; [done|].
  by rewrite updateMode_participants.
Qed.

Lemma handle_join_registry roomId userId socket rooms :
  (handle (JoinRoom roomId userId) socket rooms).1.2 =
  (joinRoom roomId userId rooms).1.
Proof. apply onJoinRoom_registry. Qed.

Lemma handleAll_cons msg msgs socket rooms :
  (handleAll (msg :: msgs) socket rooms).1 =
  (handleAll msgs (handle msg socket rooms).1.1 (handle msg socket rooms).1.2).1.
Proof.
  cbn [handleAll]. destruct (handle msg socket rooms) as [[s1 r1] o1]. cbn.
  by destruct (handleAll msgs s1 r1) as [[s2 r2] o2].
Qed.

Lemma handle_join_socket roomId userId socket rooms :
  (handle (JoinRoom roomId userId) socket rooms).1.1 =
  mkSocket (socket_id socket) (mkData (Some roomId) (Some userId))
           ({[roomId]} ∪ joined socket).
Proof. cbn. unfold onJoinRoom. by destruct (joinRoom roomId userId rooms). Qed.

Lemma handle_disconnect_registry socket rooms r u :
  data socket = mkData (Some r) (Some u) →
  r ≠ EmptyString → u ≠ EmptyString →
  (handle Disconnect socket rooms).1.2 = (leaveRoom r u rooms).1.
Proof.
  intros Hd Hr Hu. cbn. by rewrite (onDisconnect_bound _ _ _ _ Hd Hr Hu).
Qed.

Lemma handle_disconnect_registry_cases socket rooms :
  (handle Disconnect socket rooms).1.2 = rooms ∨
  ∃ r u, data socket = mkData (Some r) (Some u) ∧
         (handle Disconnect socket rooms).1.2 = (leaveRoom r u rooms).1.
Proof.
  destruct (truthy (data_roomId (data socket)) &&
            truthy (data_userId (data socket))) eqn:Ht.
  - right. apply andb_true_iff in Ht as [Hr Hu].
    destruct socket as [sid [[r|] [u|]] j]; try done.
    exists r, u. split; [done|]. cbn in Hr, Hu.
    apply negb_true_iff, bool_decide_eq_false in Hr.
    apply negb_true_iff, bool_decide_eq_false in Hu.
    by apply handle_disconnect_registry.
  - left. by rewrite disconnect_before_join_is_silent.
Qed.

(** X11: when one connection joins as (r1, a), then joins again as a
    different pair (r2, b), and disconnects, identity a is still a
    participant of room r1: the disconnect only undoes the last join. *)
Theorem rebound_connection_leaves_first_member_behind
    (socket : Socket) (rooms : gmap string Room) (r1 a r2 b : string) :
  (r1, a) ≠ (r2, b) →
  ∃ room,
    getRoom r1
      (handleAll [JoinRoom r1 a; JoinRoom r2 b; Disconnect] socket rooms).1.2
      = Some room ∧
    a ∈ participants room.
Proof.
  intros Hne. rewrite !handleAll_cons. cbn [handleAll fst snd].
  rewrite handle_join_registry.
  set (s1 := (handle (JoinRoom r1 a) socket rooms).1.1).
  rewrite handle_join_registry, handle_join_socket.
  set (rooms1 := (joinRoom r1 a rooms).1).
  set (rooms2 := (joinRoom r2 b rooms1).1).
  set (s2 := mkSocket _ _ _).
  assert (H2 : ∃ room, rooms2 !! r1 = Some room ∧ a ∈ participants room).
  { pose proof (joinRoom_lookup r1 a rooms) as Hl1.
    pose proof (joinRoom_returns_member r1 a rooms) as Hm1.
    fold rooms1 in Hl1. unfold rooms2.
    destruct (decide (r1 = r2)) as [<-|Hr].
    - eexists. split; [apply joinRoom_lookup|].
      by eapply joinRoom_keeps_members.
    - eexists. rewrite joinRoom_other by done. split; [exact Hl1|done]. }
  destruct H2 as (room & Hl2 & Hin2). unfold getRoom.
  destruct (handle_disconnect_registry_cases s2 rooms2) as [->|(r & u & Hd & ->)];
    [by eauto|].
  injection Hd as <- <-.
  destruct (decide (r1 = r2)) as [<-|Hr].
  - apply (leaveRoom_keeps_others _ _ _ _ _ Hl2 Hin2). congruence.
  - exists room. by rewrite leaveRoom_other.
Qed.

Lemma rebound_connection_leaves_first_member_behind_witness :
  ∃ room,
    getRoom "r1"
      (handleAll [JoinRoom "r1" "a"; JoinRoom "r2" "b"; Disconnect]
                 (newSocket "s") initial).1.2 = Some room ∧
    "a"%string ∈ participants room.
Proof.
  apply (rebound_connection_leaves_first_member_behind
           (newSocket "s") initial "r1" "a" "r2" "b").
  discriminate.
Defined.

Lemma postApiRoom_ok r u rooms :
  r ≠ EmptyString → u ≠ EmptyString →
  postApiRoom (Some r) (Some u) rooms =
  ((joinRoom r u rooms).1,
   Ok200 (id (joinRoom r u rooms).2) (mode (joinRoom r u rooms).2)
         (length (participants (joinRoom r u rooms).2))).
Proof.
  intros Hr Hu. unfold postApiRoom, truthy, callJoinRoom.
  rewrite !bool_decide_eq_false_2 by done. cbn.
  by destruct (joinRoom r u rooms).
Qed.

(** X12: the path of a client through the application, POST /api/room
    followed by 'join-room' on a socket with the same non-empty identifiers
    and later the socket's disconnect, leaves a reached registry exactly as
    it was before, provided the identity was not in the room to begin
    with. *)
Theorem lobby_join_then_disconnect_restores_registry
    (ops : list Op) (socket : Socket) (r u : string) :
  r ≠ EmptyString → u ≠ EmptyString →
  (∀ room, run ops initial !! r = Some room → u ∉ participants room) →
  (handleAll [JoinRoom r u; Disconnect] socket
     (postApiRoom (Some r) (Some u) (run ops initial)).1).1.2 =
  run ops initial.
Proof.
  intros Hr Hu Hnot. rewrite (postApiRoom_ok _ _ _ Hr Hu). cbn [fst].
  rewrite !handleAll_cons. cbn [handleAll fst snd].
  rewrite handle_join_registry, handle_join_socket, joinRoom_twice.
  erewrite handle_disconnect_registry; [|done|done|done].
  rewrite leaveRoom_after_fresh_join; [done|apply run_wf, initial_wf|done].
Qed.

Lemma lobby_join_then_disconnect_restores_registry_witness :
  (handleAll [JoinRoom "R1" "b"; Disconnect] (newSocket "s")
     (postApiRoom (Some "R1"%string) (Some "b"%string)
        (run [Join "R1" "a"] initial)).1).1.2 =
  run [Join "R1" "a"] initial.
Proof.
  apply (lobby_join_then_disconnect_restores_registry
           [Join "R1" "a"] (newSocket "s") "R1" "b").
  - discriminate.
  - discriminate.
  - intros room Hl. vm_compute in Hl. injection Hl as <-. simpl.
    apply (bool_decide_unpack _). vm_compute. exact I.
Defined.

(** X13: when two connections join the same room under the same identity,
    the second join changes nothing in the registry, and the disconnect of the
    first removes the identity from the room although the second connection
    is still bound to it. *)
Theorem disconnect_removes_identity_shared_with_open_connection
    (s1 s2 : Socket) (rooms : gmap string Room) (r u : string) :
  r ≠ EmptyString → u ≠ EmptyString →
  let j1 := handle (JoinRoom r u) s1 rooms in
  let j2 := handle (JoinRoom r u) s2 j1.1.2 in
  let d1 := handle Disconnect j1.1.1 j2.1.2 in
  data j2.1.1 = mkData (Some r) (Some u) ∧
  j2.1.2 = j1.1.2 ∧
  (∀ room, getRoom r d1.1.2 = Some room → u ∉ participants room).
Proof.
  intros Hr Hu. cbn zeta.
  rewrite !handle_join_registry, !handle_join_socket, joinRoom_twice.
  split_and!; [done|done|].
  erewrite handle_disconnect_registry; [|done|done|done].
  apply leave_removes_every_occurrence.
Qed.

Lemma disconnect_removes_identity_shared_with_open_connection_witness :
  let j1 := handle (JoinRoom "R1" "u") (newSocket "s1") initial in
  let j2 := handle (JoinRoom "R1" "u") (newSocket "s2") j1.1.2 in
  let d1 := handle Disconnect j1.1.1 j2.1.2 in
  data j2.1.1 = mkData (Some "R1"%string) (Some "u"%string) ∧
  j2.1.2 = j1.1.2 ∧
  (∀ room, getRoom "R1" d1.1.2 = Some room → "u"%string ∉ participants room).
Proof.
  apply (disconnect_removes_identity_shared_with_open_connection
           (newSocket "s1") (newSocket "s2") initial "R1" "u"); discriminate.
Defined.

(** X14: a POST /api/room with non-empty identifiers answers 200 with the
    id, mode and participant count that a GET /api/room/:roomId right after
    it reports, and the joined identity is among the participants
    reported. *)
Theorem post_room_then_get_room_agree
    (rooms : gmap string Room) (r u : string) :
  r ≠ EmptyString → u ≠ EmptyString →
  ∃ rid m members,
    (postApiRoom (Some r) (Some u) rooms).2 = Ok200 rid m (length members) ∧
    getApiRoom r (postApiRoom (Some r) (Some u) rooms).1 =
      RoomFound rid m (length members) members ∧
    u ∈ members.
Proof.
  intros Hr Hu. rewrite (postApiRoom_ok _ _ _ Hr Hu). cbn [fst snd].
  unfold getApiRoom, getRoom. rewrite joinRoom_lookup.
  eexists _, _, _. split_and!; [done|done|apply joinRoom_returns_member].
Qed.

Lemma post_room_then_get_room_agree_witness :
  ∃ rid m members,
    (postApiRoom (Some "R1"%string) (Some "c"%string)
       (run [Join "R1" "a"; Join "R1" "b"] initial)).2 =
      Ok200 rid m (length members) ∧
    getApiRoom "R1"
      (postApiRoom (Some "R1"%string) (Some "c"%string)
         (run [Join "R1" "a"; Join "R1" "b"] initial)).1 =
      RoomFound rid m (length members) members ∧
    "c"%string ∈ members.
Proof.
  apply (post_room_then_get_room_agree _ "R1" "c"); discriminate.
Defined.

Lemma handle_registry_wf msg socket rooms :
  registry_wf rooms → registry_wf (handle msg socket rooms).1.2.
Proof.
  intros Hwf. destruct msg; try done.
  - rewrite handle_join_registry. by apply joinRoom_wf.
  - destruct (handle_disconnect_registry_cases socket rooms)
      as [->|(r & u & _ & ->)]; [done|by apply leaveRoom_wf].
Qed.

Lemma postApiRoom_registry_wf r u rooms :
  registry_wf rooms → registry_wf (postApiRoom r u rooms).1.
Proof.
  intros Hwf. unfold postApiRoom, callJoinRoom.
  destruct r as [r|], u as [u|]; try done.
  case_match; [done|].
  pose proof (joinRoom_wf r u rooms Hwf) as Hj.
  by destruct (joinRoom r u rooms).
Qed.

Lemma serve_wf rooms req : registry_wf rooms → registry_wf (serve rooms req).
Proof.
  destruct req; cbn; [apply handle_registry_wf|apply postApiRoom_registry_wf].
Qed.

(** X15: whatever sequence of socket messages (on connections in any
    state) and POST /api/room requests the server handles from its start,
    every room in the registry sits under its own id, has distinct
    participants, at least one, and is in sfu mode exactly when it has three
    or more. *)
Theorem server_keeps_registry_invariant (reqs : list Request) :
  map_Forall (λ roomId room,
                id room = roomId ∧ NoDup (participants room) ∧
                1 ≤ length (participants room) ∧ mode_inv room)
             (serveAll reqs initial).
Proof.
  assert (Hwf : registry_wf (serveAll reqs initial)).
  { unfold serveAll. generalize initial_wf. generalize initial.
    induction reqs as [|req reqs IH]; intros rooms Hwf; [done|].
    cbn. apply IH. by apply serve_wf. }
  intros roomId room Hl. pose proof (Hwf _ _ Hl) as Hroom.
  destruct Hroom as [Hid Hnd Hne Hm].
  split_and!; [done|done| |].
  - destruct (participants room); [done|cbn; lia].
  - eapply room_wf_mode_inv. by apply Hwf.
Qed.

End RelayExtra.

(* ===================================================================== *)
(** * Properties of the token endpoint *)
(* ===================================================================== *)

Module RestExtra.
Import Rooms Relay Rest RoomsFacts RelayFacts RoomsExtra RelayExtra.

(** X16: GET /api/livekit-token answers 400 exactly when roomId or userId
    is missing or empty, whatever the configuration; 500 exactly when both
    are present and the API key or secret is missing or empty; and a token it
    returns is the signed token for the configured key and secret whose
    identity is the requested userId and whose grant allows joining,
    publishing and subscribing in the requested roomId. *)
Theorem token_endpoint_outcomes
    (toJwt : AccessToken → string) (env : Env) (roomId userId : option string) :
  (getLivekitToken toJwt env roomId userId = TokenErr400 ↔
   truthy roomId && truthy userId = false) ∧
  (getLivekitToken toJwt env roomId userId = TokenErr500 ↔
   truthy roomId && truthy userId = true ∧
   truthy (LIVEKIT_API_KEY env) && truthy (LIVEKIT_API_SECRET env) = false) ∧
  (∀ token,
     getLivekitToken toJwt env roomId userId = TokenOk token →
     ∃ r u key secret,
       roomId = Some r ∧ userId = Some u ∧
       LIVEKIT_API_KEY env = Some key ∧ LIVEKIT_API_SECRET env = Some secret ∧
       token =
         toJwt (mkToken key secret u (Some (mkGrant true r true true)))).
Proof.
  unfold getLivekitToken, createAccessToken, truthy.
  destruct roomId as [r|], userId as [u|], env as [[k|] [s|]]; cbn;
    repeat case_bool_decide; cbn;
    intuition (try discriminate; simplify_eq; eauto 10).
Qed.

End RestExtra.

(* ===================================================================== *)
(** * Properties of the call page *)
(* ===================================================================== *)

Module CallPageExtra.
Import Rooms Relay Rest CallPage RoomsFacts RelayFacts RoomsExtra RelayExtra.





(** X20: the REST fallback of the call page, fed with the answer of
    GET /api/room/:roomId on a reached registry, sets mode and participants
    to those of the stored room and keeps the banner flag; when the room does
    not exist the page is left as it is. *)
Theorem rest_fallback_matches_registry
    (ops : list Op) (v : View) (roomId : string) :
  match getRoom roomId (run ops initial) with
  | Some room =>
      onRoomInfo (getApiRoom roomId (run ops initial)) v =
      mkView (mode room) (participants room) (showModeChange v)
  | None => onRoomInfo (getApiRoom roomId (run ops initial)) v = v
  end.
Proof.
  unfold getApiRoom. destruct (getRoom roomId (run ops initial)) as [room|] eqn:Hl;
    [|done].
  destruct (run_wf ops initial initial_wf _ _ Hl) as [_ _ Hne _].
  cbn. by destruct (participants room).
Qed.

End CallPageExtra.

(* ===================================================================== *)
(** * Properties of the lobby *)
(* ===================================================================== *)

Module LobbyExtra.
Import Lobby Relay.

Lemma get_elem_of i s c :
  String.get i s = Some c → c ∈ String.list_ascii_of_string s.
Proof.
  revert i. induction s as [|a s IH]; intros i; [by destruct i|].
  destruct i as [|i]; cbn.
  - intros [= ->]. apply list_elem_of_here.
  - intros Hg. apply list_elem_of_further. by eapply IH.
Qed.

Lemma get_is_Some i s : i < String.length s → is_Some (String.get i s).
Proof.
  revert i. induction s as [|a s IH]; intros i; cbn; [lia|].
  destruct i as [|i]; [eauto|]. intros Hlt. apply IH. lia.
Qed.

Lemma charAt_in_range i :
  i < 36 →
  ∃ c, charAt chars i = String c EmptyString ∧
       c ∈ String.list_ascii_of_string chars.
Proof.
  intros Hlt. unfold charAt.
  destruct (get_is_Some i chars) as [c Hc]; [exact Hlt|].
  rewrite Hc. exists c. split; [done|]. by eapply get_elem_of.
Qed.

(** X21: when every draw is an index into the alphabet, the generated room
    id has exactly 8 characters, each from A-Z or 0-9, and is a non-empty
    string. *)
Theorem generated_room_id_is_well_formed (draw : nat → nat) :
  (∀ i, i < 8 → draw i < 36) →
  String.length (generateRoomId draw) = 8 ∧
  Forall (λ c, c ∈ String.list_ascii_of_string chars)
         (String.list_ascii_of_string (generateRoomId draw)) ∧
  truthy (Some (generateRoomId draw)) = true.
Proof.
  intros Hd. unfold generateRoomId. cbn [seq foldl].
  destruct (charAt_in_range (draw 0)) as (c0 & -> & H0); [apply Hd; lia|].
  destruct (charAt_in_range (draw 1)) as (c1 & -> & H1); [apply Hd; lia|].
  destruct (charAt_in_range (draw 2)) as (c2 & -> & H2); [apply Hd; lia|].
  destruct (charAt_in_range (draw 3)) as (c3 & -> & H3); [apply Hd; lia|].
  destruct (charAt_in_range (draw 4)) as (c4 & -> & H4); [apply Hd; lia|].
  destruct (charAt_in_range (draw 5)) as (c5 & -> & H5); [apply Hd; lia|].
  destruct (charAt_in_range (draw 6)) as (c6 & -> & H6); [apply Hd; lia|].
  destruct (charAt_in_range (draw 7)) as (c7 & -> & H7); [apply Hd; lia|].
  cbn [String.append String.list_ascii_of_string String.length].
  split_and!; [done| |done].
  by repeat (apply Forall_cons; split; [assumption|]).
Qed.

Lemma generated_room_id_is_well_formed_witness :
  String.length (generateRoomId (λ i, 5 * i)) = 8 ∧
  Forall (λ c, c ∈ String.list_ascii_of_string chars)
         (String.list_ascii_of_string (generateRoomId (λ i, 5 * i))) ∧
  truthy (Some (generateRoomId (λ i, 5 * i))) = true.
Proof.
  apply (generated_room_id_is_well_formed (λ i, 5 * i)). intros i Hi. lia.
Defined.

Example generated_room_id_sample :
  generateRoomId (λ i, 5 * i) = "AFKPUZ49"%string.
Proof. reflexivity. Qed.

End LobbyExtra.

(* ===================================================================== *)
(** * Further properties of the peer negotiation *)
(* ===================================================================== *)

Module NegotiationExtra.
Import Negotiation Runs NegotiationFacts.

Section Extra.
Context `{Browser} (roomId username : string).

Abbreviation onOffer := (onOffer roomId username).
Abbreviation onAnswer := (onAnswer username).
Abbreviation onIceCandidate := (onIceCandidate username).
Abbreviation createOffer := (createOffer roomId username).
Abbreviation peerStep := (peerStep roomId username).
Abbreviation runPeer := (runPeer roomId username).

(** X22: over every sequence of events, a component sends at most one
    offer. *)
Theorem component_sends_at_most_one_offer (es : list PeerEvent) :
  length (offersSent (runPeer es newPeer)) ≤ 1.
Proof.
  destruct (runPeer_inv roomId username es) as [[_ Hb _] _].
  unfold offer_budget in Hb. destruct (isInitiator _); lia.
Qed.

Lemma peerStep_rest p e :
  signalingState (pc p) ≠ have_remote_offer ∧
  pendingRemoteDescription (pc p) = None →
  signalingState (pc (peerStep p e)) ≠ have_remote_offer ∧
  pendingRemoteDescription (pc (peerStep p e)) = None.
Proof.
  intros [Hst Hpr].
  destruct p as [[st pl cl pr cr ap] ini pend tm snt er]. cbn in Hst, Hpr.
  subst pr.
  destruct e as [from o|from a|from c|ps|ps|i];
    cbn -[Negotiation.onOffer Negotiation.onAnswer Negotiation.onIceCandidate].
  - destruct (decide (from = username)) as [->|Hf];
      [by rewrite onOffer_self|].
    destruct (onOffer_outcome roomId username from o
                (mkPeer (mkPC st pl cl None cr ap) ini pend tm snt er) Hf)
      as (_ & _ & _ & [(_ & -> & _)|(_ & -> & _ & -> & _)]); done.
  - destruct (decide (from = username)) as [->|Hf];
      [by rewrite onAnswer_self|].
    destruct (onAnswer_outcome username from a
                (mkPeer (mkPC st pl cl None cr ap) ini pend tm snt er) Hf)
      as (_ & _ & _ & [(_ & -> & _)|(_ & -> & _ & -> & _)]); done.
  - destruct (decide (from = username)) as [->|Hf];
      [by rewrite onIceCandidate_self|].
    unfold Negotiation.onIceCandidate.
    rewrite bool_decide_eq_false_2 by done.
    unfold tryCatch. destruct st, cr; run_m; done.
  - unfold onRoomUpdated. by case_match.
  - unfold onRoomFetched. by case_match.
  - destruct (tm !! i) as [[|]|]; cbn; try done;
      unfold Negotiation.createOffer, tryCatch; destruct st; run_m; done.
Qed.

(** X23: between handlers the connection of a component is never in
    have-remote-offer and has no pending remote description, and whenever a
    remote description is committed the candidate queue is empty. *)
Theorem component_at_rest (es : list PeerEvent) :
  signalingState (pc (runPeer es newPeer)) ≠ have_remote_offer ∧
  pendingRemoteDescription (pc (runPeer es newPeer)) = None ∧
  (is_Some (currentRemoteDescription (pc (runPeer es newPeer))) →
   pendingCandidates (runPeer es newPeer) = []).
Proof.
  assert (Hrest : signalingState (pc (runPeer es newPeer)) ≠ have_remote_offer ∧
                  pendingRemoteDescription (pc (runPeer es newPeer)) = None).
  { induction es as [|e es IH] using rev_ind; [done|].
    unfold Negotiation.runPeer. rewrite foldl_snoc.
    by apply peerStep_rest. }
  destruct Hrest as [Hst Hpr]. split_and!; [done|done|].
  destruct (runPeer_inv roomId username es) as [[Hq _ _] _].
  intros Hcr. apply Hq. unfold remoteDescription. by rewrite Hpr.
Qed.

(** X24: offers, answers and candidates whose from is the component's own
    identity have no effect: a run of events ends in the same state as the
    run without them. *)
Theorem self_echoes_change_nothing (es : list PeerEvent) (p : Peer) :
  runPeer es p = runPeer (List.filter (notEcho username) es) p.
Proof.
  revert p. induction es as [|e es IH]; intros p; [done|].
  cbn [List.filter]. unfold notEcho at 1.
  case_bool_decide as He; cbn [negb].
  - cbn [Negotiation.runPeer foldl].
    replace (peerStep p e) with p; [apply IH|].
    destruct e; cbn in He; simplify_eq;
      cbn -[Negotiation.onOffer Negotiation.onAnswer Negotiation.onIceCandidate];
      by rewrite ?onOffer_self, ?onAnswer_self, ?onIceCandidate_self.
  - cbn [Negotiation.runPeer foldl]. apply IH.
Qed.

(** X25: an answer from another identity is committed only in
    have-local-offer: the pending local offer becomes the current local
    description, the answer the current remote one, the queued candidates
    are applied and nothing is sent.  In any other state the answer is
    rejected: one error is logged and nothing else changes. *)
Theorem answer_commits_only_against_a_local_offer
    (from a : string) (p : Peer) :
  from ≠ username →
  (signalingState (pc p) = have_local_offer →
   onAnswer from a p =
   mkPeer (mkPC stable None (pendingLocalDescription (pc p)) None
                (Some (mkDesc answer a))
                (appliedCandidates (pc p) ++ pendingCandidates p))
          (isInitiator p) [] (timers p) (sent p) (errors p)) ∧
  (signalingState (pc p) ≠ have_local_offer →
   onAnswer from a p =
   mkPeer (pc p) (isInitiator p) (pendingCandidates p) (timers p) (sent p)
          (S (errors p))).
Proof.
  intros Hne. unfold Negotiation.onAnswer.
  rewrite bool_decide_eq_false_2 by done.
  destruct p as [[st pl cl pr cr ap] ini pend tm snt er].
  unfold tryCatch. destruct st; run_m; try drained; split; done.
Qed.

(** X26: the offer handler fails in one situation only: the connection is in
    have-local-offer with a committed remote description, so the handler
    skips the rollback, and the browser does not roll back implicitly.  It
    then logs one error, sends nothing and leaves connection and queue as
    they were, with the initiator flag raised.  In every other situation it
    sends exactly one answer and ends stable with the incoming offer
    committed. *)
Theorem offer_fails_only_without_rollback (from o : string) (p : Peer) :
  from ≠ username →
  (signalingState (pc p) = have_local_offer ∧
   is_Some (currentRemoteDescription (pc p)) ∧ implicitRollback = false →
   onOffer from o p =
   mkPeer (pc p) true (pendingCandidates p) (timers p) (sent p)
          (S (errors p))) ∧
  (¬ (signalingState (pc p) = have_local_offer ∧
      is_Some (currentRemoteDescription (pc p)) ∧ implicitRollback = false) →
   ∃ d, dtype d = answer ∧
        sent (onOffer from o p) = sent p ++ [SentAnswer roomId username d] ∧
        errors (onOffer from o p) = errors p ∧
        signalingState (pc (onOffer from o p)) = stable ∧
        currentLocalDescription (pc (onOffer from o p)) = Some d ∧
        currentRemoteDescription (pc (onOffer from o p)) =
          Some (mkDesc offer o)).
Proof.
  intros Hne. unfold Negotiation.onOffer.
  rewrite bool_decide_eq_false_2 by done.
  destruct p as [[st pl cl pr cr ap] ini pend tm snt er].
  unfold tryCatch, setInitiator.
  destruct st; run_m; try destruct implicitRollback eqn:Hi; run_m;
    try drained;
    (split; [intros (? & ? & ?); try done
            |intros Hn; try (eexists (mkDesc answer _); by split_and!)]).
  all: try (by destruct Hn; eauto).
  all: try (by match goal with Hs : is_Some None |- _ => destruct Hs end).
Qed.

Lemma peerStep_signals p e :
  Forall (λ s, signalRoom s = roomId ∧ signalFrom s = username) (sent p) →
  Forall (λ s, signalRoom s = roomId ∧ signalFrom s = username)
         (sent (peerStep p e)).
Proof.
  intros Hs.
  destruct e as [from o|from a|from c|ps|ps|i];
    cbn -[Negotiation.onOffer Negotiation.onAnswer Negotiation.onIceCandidate].
  - destruct (decide (from = username)) as [->|Hf];
      [by rewrite onOffer_self|].
    destruct (offer_fails_only_without_rollback from o p Hf) as [Hfail Hok].
    destruct (decide (signalingState (pc p) = have_local_offer ∧
                      is_Some (currentRemoteDescription (pc p)) ∧
                      implicitRollback = false)) as [Hc|Hc].
    + by rewrite (Hfail Hc).
    + destruct (Hok Hc) as (d & _ & -> & _).
      apply Forall_app. split; [done|]. by repeat constructor.
  - destruct (decide (from = username)) as [->|Hf];
      [by rewrite onAnswer_self|].
    by destruct (onAnswer_outcome username from a p Hf) as (_ & _ & -> & _).
  - destruct (decide (from = username)) as [->|Hf];
      [by rewrite onIceCandidate_self|].
    by destruct (onIceCandidate_outcome username from c p Hf)
      as (_ & _ & -> & _).
  - unfold onRoomUpdated. by case_match.
  - unfold onRoomFetched. by case_match.
  - destruct (timers p !! i) as [t|]; [|done].
    set (p1 := mkPeer _ _ _ _ _ _).
    assert (Hc : Forall (λ s, signalRoom s = roomId ∧ signalFrom s = username)
                        (sent (createOffer p1))).
    { destruct (createOffer_outcome roomId username p1)
        as (_ & _ & _ & _ & _ & [(_ & _ & ->)|(_ & _ & d & ->)]); [done|].
      apply Forall_app. split; [done|]. by repeat constructor. }
    destruct t; cbn; [done|]. by case_bool_decide.
Qed.

(** X27: every signal a component has sent names the component's own
    room and its own identity as sender. *)
Theorem signals_carry_own_room_and_identity (es : list PeerEvent) :
  Forall (λ s, signalRoom s = roomId ∧ signalFrom s = username)
         (sent (runPeer es newPeer)).
Proof.
  induction es as [|e es IH] using rev_ind; [constructor|].
  unfold Negotiation.runPeer. rewrite foldl_snoc. by apply peerStep_signals.
Qed.

(** X28: an offer timer scheduled before an incoming offer is handled is
    not cancelled by it: after room-updated (or the room fetch) with two
    participants, an offer from the other side and the timer, the component
    has sent its answer and then an offer of its own, and is in
    have-local-offer again. *)
Theorem scheduled_offer_survives_answering
    (ps : list string) (from o : string) :
  length ps = 2 → from ≠ username →
  ∃ a d,
    dtype a = answer ∧ dtype d = offer ∧
    sent (runPeer [RecvRoomUpdated ps; RecvOffer from o; TimerFired 0] newPeer)
      = [SentAnswer roomId username a; SentOffer roomId username d] ∧
    sent (runPeer [RoomFetched ps; RecvOffer from o; TimerFired 0] newPeer)
      = [SentAnswer roomId username a; SentOffer roomId username d] ∧
    signalingState
      (pc (runPeer [RecvRoomUpdated ps; RecvOffer from o; TimerFired 0] newPeer))
      = have_local_offer.
Proof.
  intros Hlen Hne.
  cbn [Negotiation.runPeer foldl Negotiation.peerStep].
  unfold onRoomUpdated, onRoomFetched. rewrite bool_decide_eq_true_2 by done.
  cbn [newPeer isInitiator negb andb schedule setInitiator pc pendingCandidates
       timers sent errors app].
  unfold Negotiation.onOffer. rewrite bool_decide_eq_false_2 by done.
  unfold tryCatch, setInitiator. run_m. unfold Negotiation.createOffer, tryCatch.
  run_m. eexists (mkDesc answer _), (mkDesc offer _). by split_and!.
Qed.

End Extra.

(** X29: the plain handshake completes: the peer that sees two
    participants sends one offer, a fresh peer receiving it sends one answer,
    and once that answer is received both connections are stable, each with
    its own description as local and the other's as remote, without
    errors. *)
Theorem offer_answer_handshake_completes
    `{Browser} (roomId a b : string) (ps : list string) :
  a ≠ b → length ps = 2 →
  ∃ dA dB,
    let A1 := runPeer roomId a [RecvRoomUpdated ps; TimerFired 0] newPeer in
    let B1 := runPeer roomId b [RecvOffer a (sdp dA)] newPeer in
    let A2 := runPeer roomId a [RecvAnswer b (sdp dB)] A1 in
    sent A1 = [SentOffer roomId a dA] ∧
    sent B1 = [SentAnswer roomId b dB] ∧
    pc A2 = mkPC stable None (Some dA) None (Some dB) [] ∧
    pc B1 = mkPC stable None (Some dB) None (Some dA) [] ∧
    sent A2 = sent A1 ∧ errors A2 = 0 ∧ errors B1 = 0.
Proof.
  intros Hab Hlen.
  eexists (mkDesc offer _), (mkDesc answer _). cbn zeta.
  cbn [runPeer foldl peerStep].
  unfold onRoomUpdated. rewrite bool_decide_eq_true_2 by done.
  cbn [newPeer isInitiator negb andb schedule setInitiator pc pendingCandidates
       timers sent errors app lookup list_lookup delete list_delete runTimer sdp].
  unfold createOffer, tryCatch. run_m.
  unfold onOffer, onAnswer.
  rewrite !bool_decide_eq_false_2 by done.
  unfold tryCatch, setInitiator. run_m. by split_and!.
Qed.

(** X30: symmetric glare: when two peers both hold an uncommitted local
    offer and each receives the other's offer, both roll back and both
    answer; each answer then reaches a stable connection and is rejected with
    an error.  Both end stable with the other's offer as remote description
    and their own answer as local description. *)
Theorem symmetric_glare_discards_both_offers
    `{Browser} (roomId a b oA oB : string) (A B : Peer) :
  a ≠ b →
  signalingState (pc A) = have_local_offer →
  currentRemoteDescription (pc A) = None →
  signalingState (pc B) = have_local_offer →
  currentRemoteDescription (pc B) = None →
  ∃ ansA ansB,
    let A1 := onOffer roomId a b oB A in
    let B1 := onOffer roomId b a oA B in
    let A2 := onAnswer a b (sdp ansB) A1 in
    let B2 := onAnswer b a (sdp ansA) B1 in
    sent A2 = sent A ++ [SentAnswer roomId a ansA] ∧
    sent B2 = sent B ++ [SentAnswer roomId b ansB] ∧
    pc A2 = mkPC stable None (Some ansA) None (Some (mkDesc offer oB))
                 (appliedCandidates (pc A) ++ pendingCandidates A) ∧
    pc B2 = mkPC stable None (Some ansB) None (Some (mkDesc offer oA))
                 (appliedCandidates (pc B) ++ pendingCandidates B) ∧
    dtype ansA = answer ∧ dtype ansB = answer ∧
    errors A2 = S (errors A) ∧ errors B2 = S (errors B).
Proof.
  intros Hab HsA HcA HsB HcB.
  destruct A as [[stA plA clA prA crA apA] iniA pendA tmA sntA erA].
  destruct B as [[stB plB clB prB crB apB] iniB pendB tmB sntB erB].
  cbn in HsA, HcA, HsB, HcB. subst.
  eexists (mkDesc answer _), (mkDesc answer _). cbn zeta.
  rewrite (onOffer_glare roomId a b) by done.
  rewrite (onOffer_glare roomId b a) by done. cbn zeta.
  unfold onAnswer. rewrite !bool_decide_eq_false_2 by done.
  unfold tryCatch. run_m. by split_and!.
Qed.

Lemma answer_commits_only_against_a_local_offer_witness :
  let p :=
    runPeer (H := sampleBrowser) "R1" "a"
            [RecvRoomUpdated ["a"; "b"]; TimerFired 0] newPeer in
  (signalingState (pc p) = have_local_offer →
   onAnswer (H := sampleBrowser) "a" "b" "v=0 o=reply" p =
   mkPeer (mkPC stable None (pendingLocalDescription (pc p)) None
                (Some (mkDesc answer "v=0 o=reply"))
                (appliedCandidates (pc p) ++ pendingCandidates p))
          (isInitiator p) [] (timers p) (sent p) (errors p)) ∧
  (signalingState (pc p) ≠ have_local_offer →
   onAnswer (H := sampleBrowser) "a" "b" "v=0 o=reply" p =
   mkPeer (pc p) (isInitiator p) (pendingCandidates p) (timers p) (sent p)
          (S (errors p))).
Proof.
  apply (answer_commits_only_against_a_local_offer (H := sampleBrowser)
           "a" "b" "v=0 o=reply").
  discriminate.
Defined.

Lemma offer_fails_only_without_rollback_witness :
  (signalingState (pc newPeer) = have_local_offer ∧
   is_Some (currentRemoteDescription (pc newPeer)) ∧
   implicitRollback (Browser := sampleBrowser) = false →
   onOffer (H := sampleBrowser) "R1" "a" "b" "v=0 o=remote" newPeer =
   mkPeer (pc newPeer) true (pendingCandidates newPeer) (timers newPeer)
          (sent newPeer) (S (errors newPeer))) ∧
  (¬ (signalingState (pc newPeer) = have_local_offer ∧
      is_Some (currentRemoteDescription (pc newPeer)) ∧
      implicitRollback (Browser := sampleBrowser) = false) →
   ∃ d, dtype d = answer ∧
        sent (onOffer (H := sampleBrowser) "R1" "a" "b" "v=0 o=remote" newPeer)
          = sent newPeer ++ [SentAnswer "R1" "a" d] ∧
        errors (onOffer (H := sampleBrowser) "R1" "a" "b" "v=0 o=remote" newPeer)
          = errors newPeer ∧
        signalingState
          (pc (onOffer (H := sampleBrowser) "R1" "a" "b" "v=0 o=remote" newPeer))
          = stable ∧
        currentLocalDescription
          (pc (onOffer (H := sampleBrowser) "R1" "a" "b" "v=0 o=remote" newPeer))
          = Some d ∧
        currentRemoteDescription
          (pc (onOffer (H := sampleBrowser) "R1" "a" "b" "v=0 o=remote" newPeer))
          = Some (mkDesc offer "v=0 o=remote")).
Proof.
  apply (offer_fails_only_without_rollback (H := sampleBrowser)
           "R1" "a" "b" "v=0 o=remote" newPeer).
  discriminate.
Defined.

Lemma scheduled_offer_survives_answering_witness :
  ∃ a d,
    dtype a = answer ∧ dtype d = offer ∧
    sent (runPeer (H := sampleBrowser) "R1" "a"
            [RecvRoomUpdated ["a"; "b"]; RecvOffer "b" "v=0 o=remote";
             TimerFired 0] newPeer)
      = [SentAnswer "R1" "a" a; SentOffer "R1" "a" d] ∧
    sent (runPeer (H := sampleBrowser) "R1" "a"
            [RoomFetched ["a"; "b"]; RecvOffer "b" "v=0 o=remote";
             TimerFired 0] newPeer)
      = [SentAnswer "R1" "a" a; SentOffer "R1" "a" d] ∧
    signalingState
      (pc (runPeer (H := sampleBrowser) "R1" "a"
             [RecvRoomUpdated ["a"; "b"]; RecvOffer "b" "v=0 o=remote";
              TimerFired 0] newPeer))
      = have_local_offer.
Proof.
  apply (scheduled_offer_survives_answering (H := sampleBrowser)
           "R1" "a" ["a"; "b"] "b" "v=0 o=remote").
  - reflexivity.
  - discriminate.
Defined.

Lemma offer_answer_handshake_completes_witness :
  ∃ dA dB,
    let A1 :=
      runPeer (H := sampleBrowser) "R1" "a"
              [RecvRoomUpdated ["a"; "b"]; TimerFired 0] newPeer in
    let B1 :=
      runPeer (H := sampleBrowser) "R1" "b" [RecvOffer "a" (sdp dA)] newPeer in
    let A2 :=
      runPeer (H := sampleBrowser) "R1" "a" [RecvAnswer "b" (sdp dB)] A1 in
    sent A1 = [SentOffer "R1" "a" dA] ∧
    sent B1 = [SentAnswer "R1" "b" dB] ∧
    pc A2 = mkPC stable None (Some dA) None (Some dB) [] ∧
    pc B1 = mkPC stable None (Some dB) None (Some dA) [] ∧
    sent A2 = sent A1 ∧ errors A2 = 0 ∧ errors B1 = 0.
Proof.
  apply (offer_answer_handshake_completes (H := sampleBrowser)
           "R1" "a" "b" ["a"; "b"]).
  - discriminate.
  - reflexivity.
Defined.

Lemma symmetric_glare_discards_both_offers_witness :
  let A :=
    runPeer (H := sampleBrowser) "R1" "a"
            [RecvRoomUpdated ["a"; "b"]; TimerFired 0] newPeer in
  let B :=
    runPeer (H := sampleBrowser) "R1" "b"
            [RoomFetched ["a"; "b"]; TimerFired 0] newPeer in
  ∃ ansA ansB,
    let A1 := onOffer (H := sampleBrowser) "R1" "a" "b" "v=0 o=offer" A in
    let B1 := onOffer (H := sampleBrowser) "R1" "b" "a" "v=0 o=offer" B in
    let A2 := onAnswer (H := sampleBrowser) "a" "b" (sdp ansB) A1 in
    let B2 := onAnswer (H := sampleBrowser) "b" "a" (sdp ansA) B1 in
    sent A2 = sent A ++ [SentAnswer "R1" "a" ansA] ∧
    sent B2 = sent B ++ [SentAnswer "R1" "b" ansB] ∧
    pc A2 = mkPC stable None (Some ansA) None
                 (Some (mkDesc offer "v=0 o=offer"))
                 (appliedCandidates (pc A) ++ pendingCandidates A) ∧
    pc B2 = mkPC stable None (Some ansB) None
                 (Some (mkDesc offer "v=0 o=offer"))
                 (appliedCandidates (pc B) ++ pendingCandidates B) ∧
    dtype ansA = answer ∧ dtype ansB = answer ∧
    errors A2 = S (errors A) ∧ errors B2 = S (errors B).
Proof.
  apply (symmetric_glare_discards_both_offers (H := sampleBrowser)
           "R1" "a" "b" "v=0 o=offer" "v=0 o=offer").
  - discriminate.
  - vm_compute. reflexivity.
  - vm_compute. reflexivity.
  - vm_compute. reflexivity.
  - vm_compute. reflexivity.
Defined.

End NegotiationExtra.
